(** * Resume analyzer: a shallow embedding of the document-to-feedback pipeline

    The development follows the Python sources under [resume_analyzer/]:
    [utils/helpers.py], [models/schemas.py], [core/scorer.py],
    [core/analyzer.py], [core/rewriter.py] and [core/parser.py].

    Python values are modelled as follows.
    - [str] is a list of Unicode code points ([Z]); [py] injects an ASCII
      literal.
    - [int] is [Z]; [float] is a primitive binary64 float, so that
      arithmetic on scores rounds exactly as the interpreter's does.
    - a [dict] is an association list in insertion order (the order is
      observable through [items()] and [sorted]).
    - a [try]/[except Exception] block is an [option]-valued body whose
      [None] is replaced by the handler's value.
    - a call to the chat-completion client is an effect: it is answered by
      an oracle and recorded in a log of requests. *)

From Stdlib Require Import String Ascii.
From Stdlib Require Import ZArith List Bool Lia Floats.
From Stdlib Require Import Permutation Sorted.
Import ListNotations.
Open Scope Z_scope.

(** ** Python strings *)

Definition char := Z.
Definition str := list char.

Definition py (s : string) : str :=
  map (fun a => Z.of_N (N_of_ascii a)) (list_ascii_of_string s).
Arguments py s%_string.

Definition NL : char := 10.
Definition SP : char := 32.

Definition char_in (lo hi c : char) : bool := (lo <=? c) && (c <=? hi).

(** [str.isspace] on one code point, the table shared by [str.strip()],
    [str.split()] and the [\s] class of [re]. *)
Definition isspace (c : char) : bool :=
  char_in 9 13 c || char_in 28 32 c || (c =? 133) || (c =? 160)
  || (c =? 5760) || char_in 8192 8202 c || (c =? 8232) || (c =? 8233)
  || (c =? 8239) || (c =? 8287) || (c =? 12288).

Fixpoint str_eqb (a b : str) : bool :=
  match a, b with
  | [], [] => true
  | x :: a', y :: b' => (x =? y) && str_eqb a' b'
  | _, _ => false
  end.

Definition is_empty {A} (l : list A) : bool :=
  match l with [] => true | _ => false end.

Definition len {A} (l : list A) : Z := Z.of_nat (length l).

(** [s.lstrip(chars)], [s.rstrip(chars)] with the set of characters given
    as a predicate, and [s.strip()]. *)
Fixpoint lstrip_by (p : char -> bool) (s : str) : str :=
  match s with
  | [] => []
  | c :: s' => if p c then lstrip_by p s' else s
  end.

Definition rstrip_by (p : char -> bool) (s : str) : str :=
  rev (lstrip_by p (rev s)).

Definition strip (s : str) : str := rstrip_by isspace (lstrip_by isspace s).

(** [s.split(sep)] for a one-character separator: always at least one
    field. *)
Fixpoint split (sep : char) (s : str) : list str :=
  match s with
  | [] => [[]]
  | c :: s' =>
      if c =? sep then [] :: split sep s'
      else match split sep s' with
           | l :: ls => (c :: l) :: ls
           | [] => [[c]]
           end
  end.

(** [sep.join(lines)]. *)
Fixpoint join (sep : char) (ls : list str) : str :=
  match ls with
  | [] => []
  | l :: ls' =>
      match ls' with
      | [] => l
      | _ :: _ => l ++ sep :: join sep ls'
      end
  end.

(** [re.sub] for the patterns [c{n,}]: every maximal run of at least [n]
    copies of [c] is replaced by [repl]; shorter runs are copied.
    [pending] counts the copies of [c] read since the last other
    character. *)
Definition emit_run (c : char) (n : nat) (repl : str) (pending : nat) : str :=
  if (n <=? pending)%nat then repl else repeat c pending.

Fixpoint re_sub_run (c : char) (n : nat) (repl : str) (pending : nat)
  (s : str) : str :=
  match s with
  | [] => emit_run c n repl pending
  | x :: s' =>
      if x =? c then re_sub_run c n repl (S pending) s'
      else emit_run c n repl pending ++ x :: re_sub_run c n repl 0 s'
  end.

(** Length of the run of [c] that starts the string, and whether a run of
    at least [n] copies occurs anywhere. *)
Fixpoint run_length (c : char) (s : str) : nat :=
  match s with
  | [] => 0%nat
  | x :: s' => if x =? c then S (run_length c s') else 0%nat
  end.

Fixpoint has_run (c : char) (n : nat) (s : str) : bool :=
  match s with
  | [] => false
  | _ :: s' => (n <=? run_length c s)%nat || has_run c n s'
  end.

Fixpoint take_while (p : char -> bool) (s : str) : str :=
  match s with
  | [] => []
  | c :: s' => if p c then c :: take_while p s' else []
  end.

(** [text[:n]] for any integer [n]: a negative bound counts from the end. *)
Definition slice_to (n : Z) (text : str) : str :=
  if 0 <=? n then firstn (Z.to_nat n) text
  else firstn (length text - Z.to_nat (- n)) text.

(** [text.rfind(c)]: the last index of [c], or [-1]. *)
Fixpoint rfind_from (c : char) (s : str) (i : Z) (found : Z) : Z :=
  match s with
  | [] => found
  | x :: s' => rfind_from c s' (i + 1) (if x =? c then i else found)
  end.

Definition rfind (c : char) (s : str) : Z := rfind_from c s 0 (-1).

(** ** Numbers *)

(** [float(z)] for an integer of moderate size (below [2^63] in absolute
    value; exact below [2^53]). *)
Definition float_of_int (z : Z) : float :=
  if z <? 0 then PrimFloat.opp (PrimFloat.of_uint63 (Uint63.of_Z (- z)))
  else PrimFloat.of_uint63 (Uint63.of_Z z).

(** [int(f)]: truncation toward zero of the exact value of [f];
    [None] stands for the [ValueError] on NaN and the [OverflowError] on an
    infinity. *)
Definition float_trunc (f : float) : option Z :=
  match Prim2SF f with
  | S754_zero _ => Some 0
  | S754_finite s m e =>
      let a := Z.shiftl (Z.pos m) e in Some (if s then - a else a)
  | _ => None
  end.

(** The integer nearest to [num / den] ([den > 0]), ties to the even one. *)
Definition round_half_even (num den : Z) : Z :=
  let q := num / den in
  match 2 * (num mod den) ?= den with
  | Lt => q
  | Gt => q + 1
  | Eq => if Z.even q then q else q + 1
  end.

(** The integer nearest to [m * 2^e], ties to even. *)
Definition round_scaled (m e : Z) : Z :=
  if 0 <=? e then m * 2 ^ e else round_half_even m (2 ^ (- e)).

(** [round(f)]: the nearest integer to the exact value of [f], ties to
    even; [None] on NaN and infinities. *)
Definition float_round (f : float) : option Z :=
  match Prim2SF f with
  | S754_zero _ => Some 0
  | S754_finite s m e =>
      let a := round_scaled (Z.pos m) e in Some (if s then - a else a)
  | _ => None
  end.

(** [round(x, 1)] on a float: the double nearest to [t / 10], where the
    integer [t] is [10 * x] rounded from the exact value of [x] with ties
    to even.  The float division of the exactly represented [t] by [10] is
    correctly rounded, hence that nearest double.  From [t >= 2^53] on, [x]
    exceeds [2^49]: doubles are then at least [1/8] apart while [t / 10] is
    within [1/20] of [x], so the result is [x] itself.  NaN, infinities and
    zeros are returned as they are. *)
Definition py_round1 (x : float) : float :=
  match Prim2SF x with
  | S754_finite s m e =>
      let t := round_scaled (10 * Z.pos m) e in
      if 2 ^ 53 <=? t then x
      else
        let r := (float_of_int t / float_of_int 10)%float in
        if s then (- r)%float else r
  | _ => x
  end.

(** ** JSON values, as [json.loads] returns them *)

#[local] Unset Elimination Schemes.
Inductive json : Type :=
  | JNull
  | JBool (b : bool)
  | JInt (z : Z)
  | JFloat (f : float)
  | JStr (s : str)
  | JArr (items : list json)
  | JObj (fields : list (str * json)).
#[local] Set Elimination Schemes.

(** A [dict] keeps its items in insertion order; a parsed object has
    each key once. *)
Definition dict := list (str * json).

Fixpoint dict_find (d : dict) (key : str) : option json :=
  match d with
  | [] => None
  | (k, v) :: d' => if str_eqb k key then Some v else dict_find d' key
  end.

(** [d.get(key, default)]. *)
Definition dict_get (d : dict) (key : str) (default : json) : json :=
  match dict_find d key with
  | Some v => v
  | None => default
  end.

(** Truth value of an object in a condition. *)
Definition truthy (v : json) : bool :=
  match v with
  | JNull => false
  | JBool b => b
  | JInt z => negb (z =? 0)
  | JFloat f => negb (f =? 0)%float
  | JStr s => negb (is_empty s)
  | JArr l => negb (is_empty l)
  | JObj d => negb (is_empty d)
  end.

(** [v != s] for a string literal [s]. *)
Definition neq_str (v : json) (s : str) : bool :=
  match v with
  | JStr s' => negb (str_eqb s' s)
  | _ => true
  end.

(** Iteration over a JSON value in a [for] loop: the items of a list, the
    characters of a string, the keys of a dict; [None] is the [TypeError]
    of the other values. *)
Definition json_iter (v : json) : option (list json) :=
  match v with
  | JArr l => Some l
  | JStr s => Some (map (fun c => JStr [c]) s)
  | JObj d => Some (map (fun kv => JStr (fst kv)) d)
  | _ => None
  end.

(** The option monad of a [try] body: [None] is a raised exception. *)
Definition bind {A B} (x : option A) (f : A -> option B) : option B :=
  match x with
  | Some a => f a
  | None => None
  end.

Notation "x <- e ;; k" := (bind e (fun x => k))
  (at level 61, e at next level, right associativity).

Fixpoint mapM {A B} (f : A -> option B) (l : list A) : option (list B) :=
  match l with
  | [] => Some []
  | a :: l' => b <- f a;; bs <- mapM f l';; Some (b :: bs)
  end.

(** ** The interpreter's tables

    Three library functions consult tables of the Unicode database that
    are not part of this program: the decimal digits of the [\d] class,
    [str.lower] and [int] applied to a string.  They are parameters of the
    functions that use them. *)
Record pylib := {
  uni_decimal : char -> bool;
  str_lower : str -> str;
  int_of_str : str -> option Z
}.

(** The three functions on ASCII text. *)
Definition ascii_lower (c : char) : char :=
  if char_in 65 90 c then c + 32 else c.

Fixpoint digits_value (s : str) (acc : Z) : option Z :=
  match s with
  | [] => Some acc
  | c :: s' =>
      if char_in 48 57 c then digits_value s' (10 * acc + (c - 48)) else None
  end.

Definition ascii_int_of_str (s : str) : option Z :=
  match strip s with
  | [] => None
  | c :: s' =>
      if c =? 45 then
        if is_empty s' then None else z <- digits_value s' 0;; Some (- z)
      else if c =? 43 then
        if is_empty s' then None else digits_value s' 0
      else digits_value (c :: s') 0
  end.

Definition ascii_lib : pylib := {|
  uni_decimal := char_in 48 57;
  str_lower := map ascii_lower;
  int_of_str := ascii_int_of_str
|}.

(** ** models/schemas.py *)

Record ScoreResult := {
  clarity : Z;
  impact : Z;
  relevance : Z;
  completeness : Z;
  ats_score : Z
}.

(** The field constraint [Field(ge=1, le=10)]. *)
Definition in_range (z : Z) : bool := (1 <=? z) && (z <=? 10).

Definition valid_scores (s : ScoreResult) : bool :=
  in_range (clarity s) && in_range (impact s) && in_range (relevance s)
  && in_range (completeness s) && in_range (ats_score s).

(** The constructor [ScoreResult(...)]: validation may raise. *)
Definition ScoreResult_new (c i r k a : Z) : option ScoreResult :=
  let s := {| clarity := c; impact := i; relevance := r;
              completeness := k; ats_score := a |} in
  if valid_scores s then Some s else None.

Definition weight_clarity : float := 0x1.999999999999ap-3%float.      (* 0.20 *)
Definition weight_impact : float := 0.25%float.
Definition weight_relevance : float := 0x1.999999999999ap-3%float.    (* 0.20 *)
Definition weight_completeness : float := 0x1.3333333333333p-3%float. (* 0.15 *)
Definition weight_ats_score : float := 0x1.999999999999ap-3%float.    (* 0.20 *)

(** The weighted sum before rounding, added left to right. *)
Definition weighted_sum (s : ScoreResult) : float :=
  (float_of_int (clarity s) * weight_clarity
   + float_of_int (impact s) * weight_impact
   + float_of_int (relevance s) * weight_relevance
   + float_of_int (completeness s) * weight_completeness
   + float_of_int (ats_score s) * weight_ats_score)%float.

(** The property [ScoreResult.overall]. *)
Definition overall (s : ScoreResult) : float := py_round1 (weighted_sum s).

(** [score >= z] between a float and an integer literal. *)
Definition float_ge (x : float) (z : Z) : bool := (float_of_int z <=? x)%float.

(** The chain of tests of [ScoreResult.grade] on [score = self.overall]. *)
Definition grade_of_score (score : float) : str :=
  if float_ge score 9 then py "A+"
  else if float_ge score 8 then py "A"
  else if float_ge score 7 then py "B"
  else if float_ge score 6 then py "C"
  else if float_ge score 5 then py "D"
  else py "F".

(** The property [ScoreResult.grade]. *)
Definition grade (s : ScoreResult) : str :=
  let score := overall s in grade_of_score score.

Record RewriteSuggestion := {
  original : str;
  improved : str;
  explanation : str
}.

Record ResumeSection := {
  name : str;
  content : str;
  start_index : Z;
  end_index : Z
}.

Record ResumeData := {
  raw_text : str;
  file_name : str;
  file_type : str;
  sections : list ResumeSection;
  word_count : Z
}.

(** Validation of a [str] field: a string is taken as it is, any other
    value raises. *)
Definition str_field (v : json) : option str :=
  match v with
  | JStr s => Some s
  | _ => None
  end.

(** [ResumeSection(name=..., content=...)], indices left at their default. *)
Definition ResumeSection_new (section_name : str) (content : json)
  : option ResumeSection :=
  c <- str_field content;;
  Some {| name := section_name; content := c; start_index := 0; end_index := 0 |}.

(** [RewriteSuggestion(original=..., improved=..., explanation=...)]. *)
Definition RewriteSuggestion_new (o i e : json) : option RewriteSuggestion :=
  o' <- str_field o;; i' <- str_field i;; e' <- str_field e;;
  Some {| original := o'; improved := i'; explanation := e' |}.

(** Assignment to [resume.sections]. *)
Definition set_sections (resume : ResumeData) (l : list ResumeSection)
  : ResumeData :=
  {| raw_text := raw_text resume; file_name := file_name resume;
     file_type := file_type resume; sections := l;
     word_count := word_count resume |}.

(** ** utils/helpers.py *)

(** [clean_text]. *)
Definition clean_text (text : str) : str :=
  if is_empty text then []
  else
    let text := re_sub_run NL 3 [NL; NL] 0 text in
    let text := re_sub_run SP 2 [SP] 0 text in
    let lines := map strip (split NL text) in
    let text := join NL lines in
    strip text.

(** ** The chat-completion client

    A request names the system prompt (the four prompts are constants of
    [prompts/templates.py]) and carries the user message, the temperature
    and whether a JSON object is requested.  The answer either raises or is
    a message, of which the program only uses [json.loads]: [None] when the
    text is not JSON. *)
Inductive system_prompt :=
  | SECTION_DETECTION_PROMPT
  | ANALYSIS_SYSTEM_PROMPT
  | SCORING_SYSTEM_PROMPT
  | REWRITE_SYSTEM_PROMPT.

Record request := {
  system : system_prompt;
  user : str;
  temperature : float;
  json_object : bool
}.

Inductive response :=
  | Raises
  | Message (loads : option json).

(** A computation that may call the client: it is run against an oracle
    answering the requests and extends the log of the requests made. *)
Definition Gw (A : Type) : Type :=
  (request -> response) -> list request -> A * list request.

Definition ret {A} (a : A) : Gw A := fun _ log => (a, log).

Definition gbind {A B} (m : Gw A) (k : A -> Gw B) : Gw B :=
  fun client log => let (a, log') := m client log in k a client log'.

Notation "x <~ e ;; k" := (gbind e (fun x => k))
  (at level 61, e at next level, right associativity).

(** [client.chat.completions.create(...)]. *)
Definition create (req : request) : Gw response :=
  fun client log => (client req, log ++ [req]).

(** ** prompts/templates.py: the user prompts *)

Definition get_scoring_user_prompt (resume_text : str) : str :=
  py "Score this resume according to the rubric:" ++ [NL; NL]
  ++ py "---RESUME START---" ++ [NL] ++ resume_text ++ [NL]
  ++ py "---RESUME END---" ++ [NL; NL] ++ py "Return only the JSON scores.".

Definition get_rewrite_user_prompt (bullet_points : list str) : str :=
  let bullets_text := join NL (map (fun bp => py "- " ++ bp) bullet_points) in
  py "Please improve these resume bullet points:" ++ [NL; NL]
  ++ bullets_text ++ [NL; NL]
  ++ py "Transform each into an impactful, action-oriented statement.".

(** ** utils/helpers.py, continued *)

(** [truncate_text]. *)
Definition truncate_text (text : str) (max_chars : Z) : str :=
  if len text <=? max_chars then text
  else
    let truncated := slice_to max_chars text in
    let last_period := rfind 46 truncated in
    let last_newline := rfind NL truncated in
    let cut_point := Z.max last_period last_newline in
    let truncated :=
      if (float_of_int max_chars * 0x1.999999999999ap-1 (* 0.8 *)
          <? float_of_int cut_point)%float
      then slice_to (cut_point + 1) truncated
      else truncated in
    truncated ++ [NL; NL] ++ py "[Content truncated for length...]".

(** The class [[•\-\*→►●○◦▪▸]] of the first pattern. *)
Definition bullet_glyphs : list char :=
  [8226; 45; 42; 8594; 9658; 9679; 9675; 9702; 9642; 9656].

Definition mem_char (c : char) (l : list char) : bool :=
  existsb (Z.eqb c) l.

(** [(.+)$] under [re.MULTILINE]: a non-empty run of characters other
    than the newline, up to the end of the line. *)
Definition group_to_eol (s : str) : option str :=
  let g := take_while (fun c => negb (c =? NL)) s in
  if is_empty g then None else Some g.

(** [\s*(.+)$]: the longest run of whitespace first, giving characters
    back while the group cannot start. *)
Fixpoint ws_then_group (s : str) : option str :=
  match s with
  | [] => None
  | c :: s' =>
      if isspace c then
        match ws_then_group s' with
        | Some g => Some g
        | None => group_to_eol s
        end
      else group_to_eol s
  end.

Section Patterns.

Variable L : pylib.

(** The rest of [\d+\.\s*(.+)$] once one digit has been read. *)
Fixpoint after_digit (s : str) : option str :=
  match s with
  | [] => None
  | c :: s' =>
      match (if uni_decimal L c then after_digit s' else None) with
      | Some g => Some g
      | None => if c =? 46 then ws_then_group s' else None
      end
  end.

(** [re.match(pattern, line, re.MULTILINE)] for the three patterns, giving
    [match.group(1)]. *)
Definition match_glyph (line : str) : option str :=
  match line with
  | c :: rest => if mem_char c bullet_glyphs then ws_then_group rest else None
  | [] => None
  end.

Definition match_numbered (line : str) : option str :=
  match line with
  | c :: rest => if uni_decimal L c then after_digit rest else None
  | [] => None
  end.

Definition match_lettered (line : str) : option str :=
  match line with
  | c :: p :: rest =>
      if char_in 97 122 c && (p =? 41) then ws_then_group rest else None
  | _ => None
  end.

Definition patterns : list (str -> option str) :=
  [match_glyph; match_numbered; match_lettered].

(** The inner loop over the patterns: the bullets after the first pattern
    that matches, if any. *)
Fixpoint try_patterns (ps : list (str -> option str)) (line : str)
  (bullets : list str) : list str :=
  match ps with
  | [] => bullets
  | pattern :: ps' =>
      match pattern line with
      | Some g =>
          let bullet_text := strip g in
          if 20 <? len bullet_text then bullets ++ [bullet_text] else bullets
      | None => try_patterns ps' line bullets
      end
  end.

(** The first loop of [extract_bullet_points], from the lines still to be
    read and the bullets collected so far. *)
Fixpoint scan_patterns (max_bullets : Z) (lines : list str)
  (bullets : list str) : list str :=
  match lines with
  | [] => bullets
  | line :: rest =>
      let line := strip line in
      if is_empty line then scan_patterns max_bullets rest bullets
      else
        let bullets := try_patterns patterns line bullets in
        if max_bullets <=? len bullets then bullets
        else scan_patterns max_bullets rest bullets
  end.

Definition action_verbs : list str :=
  [py "led"; py "managed"; py "developed"; py "created"; py "implemented";
   py "increased"; py "decreased"; py "improved"; py "designed"; py "built";
   py "achieved"; py "delivered"; py "launched"; py "established";
   py "generated"; py "reduced"; py "streamlined"; py "coordinated";
   py "executed"; py "analyzed"; py "spearheaded"; py "orchestrated";
   py "optimized"; py "collaborated"; py "drove"; py "facilitated";
   py "mentored"; py "supervised"; py "oversaw"; py "authored"; py "crafted";
   py "engineered"; py "architected"; py "pioneered"; py "transformed";
   py "revamped"; py "modernized"; py "automated"; py "integrated";
   py "negotiated"; py "secured"; py "acquired"; py "retained"; py "resolved";
   py "responsible"; py "worked"; py "assisted"; py "helped"; py "supported"].

Definition mem_str (s : str) (l : list str) : bool := existsb (str_eqb s) l.

(** [line.split()[0]] when [line.split()] is not empty. *)
Definition first_field (line : str) : option str :=
  match lstrip_by isspace line with
  | [] => None
  | w => Some (take_while (fun c => negb (isspace c)) w)
  end.

(** The characters removed by [rstrip('ed')]. *)
Definition in_ed (c : char) : bool := (c =? 101) || (c =? 100).

(** The second loop of [extract_bullet_points]. *)
Fixpoint scan_verbs (max_bullets : Z) (lines : list str)
  (bullets : list str) : list str :=
  match lines with
  | [] => bullets
  | line :: rest =>
      let line := strip line in
      let first_word :=
        match first_field line with
        | Some w => rstrip_by in_ed (str_lower L w)
        | None => []
        end in
      let first_word_full :=
        match first_field line with
        | Some w => str_lower L w
        | None => []
        end in
      let bullets :=
        if (mem_str first_word_full action_verbs
            || mem_str first_word action_verbs) && (25 <? len line)
        then bullets ++ [line] else bullets in
      if max_bullets <=? len bullets then bullets
      else scan_verbs max_bullets rest bullets
  end.

(** [extract_bullet_points]. *)
Definition extract_bullet_points (text : str) (max_bullets : Z) : list str :=
  let bullets := scan_patterns max_bullets (split NL text) [] in
  if is_empty bullets then scan_verbs max_bullets (split NL text) bullets
  else bullets.

End Patterns.

(** ** core/scorer.py *)

(** The state of a [ResumeScorer] that [score] writes. *)
Record ResumeScorer := {
  _score_explanations : json
}.

Definition criteria : list str :=
  [py "clarity"; py "impact"; py "relevance"; py "completeness";
   py "ats_score"].

(** The answer of the except branch. *)
Definition neutral_scores : ScoreResult :=
  {| clarity := 5; impact := 5; relevance := 5; completeness := 5;
     ats_score := 5 |}.

(** The request built by [score]. *)
Definition scoring_request (resume : ResumeData) : request :=
  {| system := SCORING_SYSTEM_PROMPT;
     user := get_scoring_user_prompt (truncate_text (raw_text resume) 15000);
     temperature := 0x1.3333333333333p-2%float; (* 0.3 *)
     json_object := true |}.

Section Scorer.

Variable L : pylib.

(** [int(v)] on a JSON value; [None] is the [TypeError], [ValueError] or
    [OverflowError] it raises. *)
Definition py_int (v : json) : option Z :=
  match v with
  | JInt z => Some z
  | JBool b => Some (if b then 1 else 0)
  | JFloat f => float_trunc f
  | JStr s => int_of_str L s
  | JNull | JArr _ | JObj _ => None
  end.

(** The local function [clamp_score]. *)
Definition clamp_score (score : json) : option Z :=
  z <- py_int score;; Some (Z.max 1 (Z.min 10 z)).

(** The statements of the [try] block that follow [json.loads], from the
    parsed answer: the explanations are stored before the scores are
    read, so the scorer's state is returned even when the rest raises. *)
Definition read_scores (self : ResumeScorer) (loads : option json)
  : option ScoreResult * ResumeScorer :=
  match loads with
  | Some (JObj score_data) =>
      let self :=
        {| _score_explanations :=
             dict_get score_data (py "score_explanations") (JObj []) |} in
      (c <- clamp_score (dict_get score_data (py "clarity") (JInt 5));;
       i <- clamp_score (dict_get score_data (py "impact") (JInt 5));;
       r <- clamp_score (dict_get score_data (py "relevance") (JInt 5));;
       k <- clamp_score (dict_get score_data (py "completeness") (JInt 5));;
       a <- clamp_score (dict_get score_data (py "ats_score") (JInt 5));;
       ScoreResult_new c i r k a,
       self)
  | _ => (None, self)
  end.

(** [ResumeScorer.score]. *)
Definition score (self : ResumeScorer) (resume : ResumeData)
  : Gw (ScoreResult * ResumeScorer) :=
  response <~ create (scoring_request resume);;
  ret match response with
      | Raises => (neutral_scores, self)
      | Message loads =>
          match read_scores self loads with
          | (Some result, self) => (result, self)
          | (None, self) => (neutral_scores, self)
          end
      end.

End Scorer.

(** [sorted(items, key=...)]: each item in turn is inserted after the
    items whose key is not larger, so equal keys keep their order. *)
Fixpoint insert_sorted {A} (key : A -> Z) (x : A) (l : list A) : list A :=
  match l with
  | [] => [x]
  | y :: l' => if key x <? key y then x :: l else y :: insert_sorted key x l'
  end.

Definition sorted {A} (key : A -> Z) (l : list A) : list A :=
  fold_left (fun acc x => insert_sorted key x acc) l [].

Definition score_dict (scores : ScoreResult) : list (str * Z) :=
  [(py "clarity", clarity scores); (py "impact", impact scores);
   (py "relevance", relevance scores);
   (py "completeness", completeness scores);
   (py "ats_score", ats_score scores)].

(** [ResumeScorer.get_improvement_priority]. *)
Definition get_improvement_priority (scores : ScoreResult) : list str :=
  let sorted_criteria := sorted snd (score_dict scores) in
  map fst sorted_criteria.

(** ** core/analyzer.py *)

(** The loop of [detect_sections] over [sections_data.items()], from the
    items still to be read and the sections built so far. *)
Fixpoint build_sections (items : dict) (sections : list ResumeSection)
  : option (list ResumeSection) :=
  match items with
  | [] => Some sections
  | (section_name, content) :: rest =>
      if truthy content && neq_str content (py "null") then
        section <- ResumeSection_new section_name content;;
        build_sections rest (sections ++ [section])
      else build_sections rest sections
  end.

Definition read_sections (loads : option json) : option (list ResumeSection) :=
  match loads with
  | Some (JObj sections_data) => build_sections sections_data []
  | _ => None
  end.

Definition full_resume (resume : ResumeData) : ResumeSection :=
  {| name := py "full_resume"; content := raw_text resume;
     start_index := 0; end_index := 0 |}.

(** The request built by [detect_sections]. *)
Definition sections_request (resume : ResumeData) : request :=
  {| system := SECTION_DETECTION_PROMPT;
     user := truncate_text (raw_text resume) 15000;
     temperature := 0x1.3333333333333p-2%float; (* 0.3 *)
     json_object := true |}.

(** [ResumeAnalyzer.detect_sections]. *)
Definition detect_sections (resume : ResumeData) : Gw ResumeData :=
  response <~ create (sections_request resume);;
  ret match response with
      | Raises => set_sections resume [full_resume resume]
      | Message loads =>
          match read_sections loads with
          | Some sections => set_sections resume sections
          | None => set_sections resume [full_resume resume]
          end
      end.

(** ** core/rewriter.py *)

(** One iteration of the loop of [rewrite_bullets]. *)
Definition read_rewrite (rewrite : json) : option RewriteSuggestion :=
  match rewrite with
  | JObj d =>
      RewriteSuggestion_new (dict_get d (py "original") (JStr []))
        (dict_get d (py "improved") (JStr []))
        (dict_get d (py "explanation") (JStr []))
  | _ => None
  end.

Definition read_rewrites (loads : option json)
  : option (list RewriteSuggestion) :=
  match loads with
  | Some (JObj rewrite_data) =>
      rewrites <- json_iter (dict_get rewrite_data (py "rewrites") (JArr []));;
      mapM read_rewrite rewrites
  | _ => None
  end.

(** The request built by [rewrite_bullets]. *)
Definition rewrite_request (bullet_points : list str) : request :=
  {| system := REWRITE_SYSTEM_PROMPT;
     user := get_rewrite_user_prompt bullet_points;
     temperature := 0x1.6666666666666p-1%float; (* 0.7 *)
     json_object := true |}.

(** [ResumeRewriter.rewrite_bullets]. *)
Definition rewrite_bullets (bullet_points : list str)
  : Gw (list RewriteSuggestion) :=
  if is_empty bullet_points then ret []
  else
    response <~ create (rewrite_request bullet_points);;
    ret match response with
        | Raises => []
        | Message loads =>
            match read_rewrites loads with
            | Some suggestions => suggestions
            | None => []
            end
        end.

(** ** core/parser.py *)

Definition bytes := list Byte.byte.

Inductive encoding := UTF_8 | UTF_16 | LATIN_1 | CP1252.

(** [latin-1] maps every byte to the code point of the same number. *)
Definition latin_1 (b : bytes) : str :=
  map (fun x => Z.of_N (Byte.to_N x)) b.

(** What one run of [_parse_txt] did: the text returned, the codecs whose
    [decode] was called, in order, and whether the final
    [decode('utf-8', errors='replace')] was reached. *)
Record txt_run := {
  text : str;
  attempts : list encoding;
  replaced : bool
}.

Section Codecs.

(** The other codecs belong to the interpreter: [None] is a
    [UnicodeDecodeError]. *)
Variable utf_8 utf_16 cp1252 : bytes -> option str.
Variable utf_8_replace : bytes -> str.

Definition decode (e : encoding) (file_bytes : bytes) : option str :=
  match e with
  | UTF_8 => utf_8 file_bytes
  | UTF_16 => utf_16 file_bytes
  | LATIN_1 => Some (latin_1 file_bytes)
  | CP1252 => cp1252 file_bytes
  end.

(** The loop over [encodings], from the codecs still to be tried and
    those already tried. *)
Fixpoint try_encodings (encodings : list encoding) (tried : list encoding)
  (file_bytes : bytes) : txt_run :=
  match encodings with
  | [] => {| text := utf_8_replace file_bytes; attempts := tried;
             replaced := true |}
  | e :: rest =>
      match decode e file_bytes with
      | Some s => {| text := s; attempts := tried ++ [e]; replaced := false |}
      | None => try_encodings rest (tried ++ [e]) file_bytes
      end
  end.

(** [ResumeParser._parse_txt]. *)
Definition _parse_txt (file_bytes : bytes) : txt_run :=
  try_encodings [UTF_8; UTF_16; LATIN_1; CP1252] [] file_bytes.

End Codecs.

(** ** Further functions of the same files *)

(** [s.split()]: the maximal runs of characters that are not whitespace;
    [word] is the run being read. *)
Fixpoint split_words (s : str) (word : str) : list str :=
  match s with
  | [] => if is_empty word then [] else [word]
  | c :: s' =>
      if isspace c then
        if is_empty word then split_words s' [] else word :: split_words s' []
      else split_words s' (word ++ [c])
  end.

Definition words (s : str) : list str := split_words s [].

(** [ResumeData(raw_text=..., file_name=..., file_type=..., sections=...,
    word_count=...)] followed by [model_post_init]. *)
Definition ResumeData_new (raw file_name file_type : str)
  (sections : list ResumeSection) (word_count : Z) : ResumeData :=
  {| raw_text := raw; file_name := file_name; file_type := file_type;
     sections := sections;
     word_count := if negb (is_empty raw) && (word_count =? 0)
                   then len (words raw) else word_count |}.

(** [x in s] for strings: [x] occurs in [s] as a substring. *)
Fixpoint starts_with (x s : str) : bool :=
  match x, s with
  | [], _ => true
  | a :: x', b :: s' => (a =? b) && starts_with x' s'
  | _ :: _, [] => false
  end.

Fixpoint contains (x s : str) : bool :=
  starts_with x s || match s with
                     | [] => false
                     | _ :: s' => contains x s'
                     end.

(** [str(z)] for an integer. *)
Fixpoint digits_of (fuel : nat) (n : Z) (acc : str) : str :=
  match fuel with
  | O => acc
  | S fuel' =>
      let acc := (48 + n mod 10) :: acc in
      if n <? 10 then acc else digits_of fuel' (n / 10) acc
  end.

Definition str_of_int (z : Z) : str :=
  if z <? 0 then 45 :: digits_of (S (Z.to_nat (Z.log2 (- z)))) (- z) []
  else digits_of (S (Z.to_nat (Z.log2 z))) z [].

(** [c * n] for a one-character string: empty when [n] is not positive. *)
Definition repeat_char (c : char) (n : Z) : str := repeat c (Z.to_nat n).

(** [format_score_bar]; [None] is the [ZeroDivisionError] of
    [score / max_score], the [ValueError] of [int] on NaN and its
    [OverflowError] on an infinity. *)
Definition format_score_bar (score max_score bar_length : Z) : option str :=
  if max_score =? 0 then None
  else
    filled <- float_trunc (float_of_int score / float_of_int max_score
                           * float_of_int bar_length)%float;;
    let empty := bar_length - filled in
    let bar := repeat_char 9608 filled ++ repeat_char 9617 empty in
    Some (py "[" ++ bar ++ py "] " ++ str_of_int score ++ py "/"
          ++ str_of_int max_score).

Record SectionFeedback := {
  section_name : str;
  content_found : bool;
  strengths : list str;
  improvements : list str;
  missing_elements : list str
}.

(** Validation of a [list[str]] field: a list of strings. *)
Definition str_list_field (v : json) : option (list str) :=
  match v with
  | JArr l => mapM str_field l
  | _ => None
  end.

Section Feedback.

(** Validation of a [bool] field belongs to the model library; it takes a
    JSON boolean as it is.  [str_e] is the text [str(e)] of the exception
    that a [try] block raises on an answer. *)
Variable bool_field : json -> option bool.
Variable str_e : response -> str.

(** [SectionFeedback(...)] from one item of ["sections"]. *)
Definition read_feedback (section_data : json) : option SectionFeedback :=
  match section_data with
  | JObj d =>
      n <- str_field (dict_get d (py "section_name") (JStr (py "Unknown")));;
      f <- bool_field (dict_get d (py "content_found") (JBool true));;
      s <- str_list_field (dict_get d (py "strengths") (JArr []));;
      i <- str_list_field (dict_get d (py "improvements") (JArr []));;
      m <- str_list_field (dict_get d (py "missing_elements") (JArr []));;
      Some {| section_name := n; content_found := f; strengths := s;
              improvements := i; missing_elements := m |}
  | _ => None
  end.

(** The [try] block of [analyze] after [json.loads]: the summary is
    returned as it was parsed. *)
Definition read_analysis (loads : option json)
  : option (list SectionFeedback * json) :=
  match loads with
  | Some (JObj analysis_data) =>
      items <- json_iter (dict_get analysis_data (py "sections") (JArr []));;
      section_feedback <- mapM read_feedback items;;
      Some (section_feedback,
            dict_get analysis_data (py "overall_summary") (JStr []))
  | _ => None
  end.

Definition get_analysis_user_prompt (resume_text : str) : str :=
  py "Please analyze this resume and provide section-by-section feedback:"
  ++ [NL; NL] ++ py "---RESUME START---" ++ [NL] ++ resume_text ++ [NL]
  ++ py "---RESUME END---" ++ [NL; NL]
  ++ py "Remember to be encouraging and specific in your feedback.".

Definition analysis_request (resume : ResumeData) : request :=
  {| system := ANALYSIS_SYSTEM_PROMPT;
     user := get_analysis_user_prompt (truncate_text (raw_text resume) 15000);
     temperature := 0x1.6666666666666p-1%float; (* 0.7 *)
     json_object := true |}.

Definition analysis_error (response : response)
  : list SectionFeedback * json :=
  ([{| section_name := py "Error"; content_found := false; strengths := [];
       improvements := [py "Analysis failed: " ++ str_e response];
       missing_elements := [] |}],
   JStr (py "Unable to generate analysis. Please try again.")).

(** [ResumeAnalyzer.analyze]. *)
Definition analyze (resume : ResumeData)
  : Gw (list SectionFeedback * json) :=
  response <~ create (analysis_request resume);;
  ret match response with
      | Raises => analysis_error response
      | Message loads =>
          match read_analysis loads with
          | Some result => result
          | None => analysis_error response
          end
      end.

(** The request built by [rewrite_single]. *)
Definition single_request (text context : str) : request :=
  let context_note :=
    if is_empty context then []
    else py " (This is a " ++ context ++ py ")" in
  {| system := REWRITE_SYSTEM_PROMPT;
     user := py "Please improve this text" ++ context_note ++ py ":"
             ++ [NL; NL] ++ text;
     temperature := 0x1.6666666666666p-1%float; (* 0.7 *)
     json_object := true |}.

(** [rewrites[0]] and the two [get] on it; [None] is the [KeyError],
    [TypeError] or [AttributeError] of the values that are not a list
    starting with a dict. *)
Definition first_rewrite (rewrites : json) : option dict :=
  match rewrites with
  | JArr (JObj d :: _) => Some d
  | _ => None
  end.

Definition read_single (text : str) (loads : option json)
  : option RewriteSuggestion :=
  match loads with
  | Some (JObj rewrite_data) =>
      let rewrites :=
        dict_get rewrite_data (py "rewrites") (JArr [JObj []]) in
      if truthy rewrites then
        d <- first_rewrite rewrites;;
        RewriteSuggestion_new (JStr text) (dict_get d (py "improved") (JStr text))
          (dict_get d (py "explanation") (JStr []))
      else
        Some {| original := text; improved := text;
                explanation := py "No changes needed" |}
  | _ => None
  end.

Definition single_error (text : str) (response : response)
  : RewriteSuggestion :=
  {| original := text; improved := text;
     explanation := py "Rewrite failed: " ++ str_e response |}.

(** [ResumeRewriter.rewrite_single]. *)
Definition rewrite_single (text context : str) : Gw RewriteSuggestion :=
  response <~ create (single_request text context);;
  ret match response with
      | Raises => single_error text response
      | Message loads =>
          match read_single text loads with
          | Some suggestion => suggestion
          | None => single_error text response
          end
      end.

End Feedback.

Section Rewriter.

Variable L : pylib.

Definition experience_names : list str :=
  [py "experience"; py "work"; py "employment"].

(** [ResumeRewriter.extract_and_rewrite]: the loop over the sections stops
    at the first one whose name is listed. *)
Definition extract_and_rewrite (resume : ResumeData) (max_bullets : Z)
  : Gw (list RewriteSuggestion) :=
  let bullets := extract_bullet_points L (raw_text resume) max_bullets in
  let bullets :=
    if is_empty bullets then
      match find (fun section =>
                    mem_str (str_lower L (name section)) experience_names)
              (sections resume) with
      | Some section => extract_bullet_points L (content section) max_bullets
      | None => bullets
      end
    else bullets in
  if is_empty bullets then ret [] else rewrite_bullets bullets.

(** app.py, [analyze_resume]: the lines offered for rewriting when
    [extract_and_rewrite] has returned nothing. *)
Definition boilerplate_markers : list str :=
  [py "email"; py "phone"; py "@"; py "university"; py "degree";
   py "bachelor"; py "master"].

Definition candidate_lines (raw : str) : list str :=
  let lines :=
    map strip (filter (fun line => 40 <? len (strip line)) (split NL raw)) in
  filter (fun l => negb (existsb (fun x => contains x (str_lower L l))
                           boilerplate_markers)) lines.

(** app.py, [analyze_resume]: the rewriting stage. *)
Definition rewrite_stage (resume : ResumeData) : Gw (list RewriteSuggestion) :=
  rewrite_suggestions <~ extract_and_rewrite resume 6;;
  if is_empty rewrite_suggestions then
    let candidates := candidate_lines (raw_text resume) in
    if is_empty candidates then ret rewrite_suggestions
    else rewrite_bullets (firstn 5 candidates)
  else ret rewrite_suggestions.

End Rewriter.

Section Parser.

Variable L : pylib.

(** [Path(file_name).suffix] belongs to [pathlib]; [_parse_pdf] and
    [_parse_docx] call external libraries: [None] when they raise.  The
    codecs are those of [_parse_txt]. *)
Variable suffix : str -> str.
Variable pdf_text docx_text : bytes -> option str.
Variable utf_8 utf_16 cp1252 : bytes -> option str.
Variable utf_8_replace : bytes -> str.

Definition SUPPORTED_EXTENSIONS : list str :=
  [py ".pdf"; py ".docx"; py ".doc"; py ".txt"].

(** [ResumeParser.parse(file_bytes=..., file_name=...)], the call made by
    the application; [None] is a raised exception. *)
Definition parse (file_bytes : bytes) (file_name : str) : option ResumeData :=
  if negb (is_empty file_bytes) && negb (is_empty file_name) then
    let extension := str_lower L (suffix file_name) in
    if negb (mem_str extension SUPPORTED_EXTENSIONS) then None
    else
      raw_text <-
        (if str_eqb extension (py ".pdf") then pdf_text file_bytes
         else if mem_str extension [py ".docx"; py ".doc"]
              then docx_text file_bytes
         else if str_eqb extension (py ".txt")
              then Some (text (_parse_txt utf_8 utf_16 cp1252 utf_8_replace
                                 file_bytes))
         else Some []);;
      let cleaned_text := clean_text raw_text in
      Some (ResumeData_new cleaned_text file_name extension [] 0)
  else None.

End Parser.

(* ================================================================== *)
(** * Properties *)

Example clean_text_blank_lines :
  clean_text (py "a" ++ [NL; SP; NL; SP; NL] ++ py "b")
  = py "a" ++ [NL; NL; NL] ++ py "b".
Proof. reflexivity. Qed.

(** ** Strings: splitting, joining and stripping *)

Section StringFacts.

Lemma join_cons (sep : char) (l : str) (ls : list str) :
  ls <> [] -> join sep (l :: ls) = l ++ sep :: join sep ls.
Proof. destruct ls; [congruence | reflexivity]. Qed.

Lemma split_not_nil (sep : char) (s : str) : split sep s <> [].
Proof.
  destruct s as [|c s]; simpl; [discriminate|].
  destruct (c =? sep); [discriminate|].
  destruct (split sep s); discriminate.
Qed.

Lemma join_split (sep : char) (s : str) : join sep (split sep s) = s.
Proof.
  induction s as [|c s IH]; [reflexivity|].
  simpl split. destruct (Z.eqb_spec c sep) as [->|Hne].
  - rewrite join_cons by apply split_not_nil. simpl. now rewrite IH.
  - pose proof (split_not_nil sep s) as Hnn.
    destruct (split sep s) as [|l ls]; [congruence|].
    destruct ls as [|l' ls]; simpl in *; now rewrite <- IH.
Qed.

Lemma split_fields_no_sep (sep : char) (s : str) :
  Forall (fun l => ~ In sep l) (split sep s).
Proof.
  induction s as [|c s IH]; simpl.
  - constructor; auto.
  - destruct (Z.eqb_spec c sep) as [->|Hne].
    + constructor; auto.
    + destruct (split sep s) as [|l ls]; inversion IH; subst;
        constructor; simpl; intuition congruence.
Qed.

Lemma split_app_sep (sep : char) (l rest : str) :
  ~ In sep l -> split sep (l ++ sep :: rest) = l :: split sep rest.
Proof.
  induction l as [|c l IH]; simpl; intros Hin.
  - now rewrite Z.eqb_refl.
  - destruct (Z.eqb_spec c sep) as [->|Hne]; [tauto|].
    rewrite IH by tauto. reflexivity.
Qed.

Lemma split_no_sep (sep : char) (l : str) : ~ In sep l -> split sep l = [l].
Proof.
  induction l as [|c l IH]; simpl; intros Hin; [reflexivity|].
  destruct (Z.eqb_spec c sep) as [->|Hne]; [tauto|].
  rewrite IH by tauto. reflexivity.
Qed.

Lemma split_join (sep : char) (ls : list str) :
  ls <> [] -> Forall (fun l => ~ In sep l) ls -> split sep (join sep ls) = ls.
Proof.
  induction ls as [|l ls IH]; [congruence|]. intros _ Hall.
  inversion Hall as [|? ? Hl Hls]; subst.
  destruct ls as [|l' ls].
  - simpl. now apply split_no_sep.
  - rewrite join_cons by discriminate.
    rewrite split_app_sep by assumption.
    rewrite IH; [reflexivity | discriminate | assumption].
Qed.

Lemma join_snoc (sep : char) (ls : list str) (l : str) :
  ls <> [] -> join sep (ls ++ [l]) = join sep ls ++ sep :: l.
Proof.
  induction ls as [|a ls IH]; [congruence|]. intros _.
  destruct ls as [|l' ls]; [reflexivity|].
  change ((a :: l' :: ls) ++ [l]) with (a :: ((l' :: ls) ++ [l])).
  rewrite join_cons by (simpl; discriminate).
  rewrite IH by discriminate.
  rewrite (join_cons sep a (l' :: ls)) by discriminate.
  now rewrite <- app_assoc.
Qed.

Lemma rev_join (sep : char) (ls : list str) :
  rev (join sep ls) = join sep (map (@rev char) (rev ls)).
Proof.
  induction ls as [|l ls IH]; [reflexivity|].
  destruct ls as [|l' ls]; [reflexivity|].
  rewrite join_cons by discriminate.
  rewrite rev_app_distr.
  change (rev (sep :: join sep (l' :: ls)))
    with (rev (join sep (l' :: ls)) ++ [sep]).
  rewrite IH.
  change (rev (l :: l' :: ls)) with (rev (l' :: ls) ++ [l]).
  rewrite map_app. change (map (@rev char) [l]) with [rev l].
  rewrite join_snoc.
  - now rewrite <- app_assoc.
  - intros H. apply (f_equal (@length _)) in H.
    rewrite length_map, length_rev in H. discriminate.
Qed.

End StringFacts.

Section StripFacts.

Variable p : char -> bool.

(** A string that does not begin with a character of the stripped set. *)
Definition starts_clean (s : str) : Prop :=
  match s with
  | [] => True
  | c :: _ => p c = false
  end.

Lemma lstrip_by_decomp (s : str) :
  exists w, s = w ++ lstrip_by p s /\ Forall (fun c => p c = true) w.
Proof.
  induction s as [|c s (w & Hw & Hall)]; simpl.
  - exists []; auto.
  - destruct (p c) eqn:Hc.
    + exists (c :: w); split; [simpl; congruence | auto].
    + exists []; auto.
Qed.

Lemma lstrip_by_starts_clean (s : str) : starts_clean (lstrip_by p s).
Proof.
  induction s as [|c s IH]; simpl; [exact I|].
  destruct (p c) eqn:Hc; [assumption | exact Hc].
Qed.

Lemma lstrip_by_fixed (s : str) : starts_clean s -> lstrip_by p s = s.
Proof. destruct s as [|c s]; simpl; [reflexivity | now intros ->]. Qed.

Lemma rstrip_by_decomp (s : str) :
  exists w, s = rstrip_by p s ++ w /\ Forall (fun c => p c = true) w.
Proof.
  unfold rstrip_by. destruct (lstrip_by_decomp (rev s)) as (w & Hw & Hall).
  exists (rev w). split.
  - rewrite <- rev_app_distr, <- Hw. now rewrite rev_involutive.
  - now apply Forall_rev.
Qed.

Lemma rstrip_by_ends_clean (s : str) : starts_clean (rev (rstrip_by p s)).
Proof. unfold rstrip_by. rewrite rev_involutive. apply lstrip_by_starts_clean. Qed.

Lemma rstrip_by_fixed (s : str) : starts_clean (rev s) -> rstrip_by p s = s.
Proof.
  intros H. unfold rstrip_by. rewrite lstrip_by_fixed by assumption.
  apply rev_involutive.
Qed.

Lemma rstrip_by_keeps_start (s : str) :
  starts_clean s -> starts_clean (rstrip_by p s).
Proof.
  destruct (rstrip_by_decomp s) as (w & Hw & _).
  destruct (rstrip_by p s) as [|c r]; [intros; exact I|].
  rewrite Hw. simpl. auto.
Qed.

Lemma lstrip_by_length (s : str) : (length (lstrip_by p s) <= length s)%nat.
Proof.
  destruct (lstrip_by_decomp s) as (w & Hw & _).
  rewrite Hw at 2. rewrite length_app. lia.
Qed.

Lemma rstrip_by_length (s : str) : (length (rstrip_by p s) <= length s)%nat.
Proof.
  destruct (rstrip_by_decomp s) as (w & Hw & _).
  rewrite Hw at 2. rewrite length_app. lia.
Qed.

End StripFacts.

(** A line on which [strip] has nothing to remove. *)
Definition stripped (l : str) : Prop :=
  starts_clean isspace l /\ starts_clean isspace (rev l).

Lemma strip_stripped (s : str) : stripped (strip s).
Proof.
  split.
  - apply rstrip_by_keeps_start, lstrip_by_starts_clean.
  - apply rstrip_by_ends_clean.
Qed.

Lemma stripped_fixed (l : str) : stripped l -> strip l = l.
Proof.
  intros [Hs He]. unfold strip.
  rewrite lstrip_by_fixed by assumption. now apply rstrip_by_fixed.
Qed.

Lemma strip_decomp (s : str) : exists w1 w2, s = w1 ++ strip s ++ w2.
Proof.
  destruct (lstrip_by_decomp isspace s) as (w1 & H1 & _).
  destruct (rstrip_by_decomp isspace (lstrip_by isspace s)) as (w2 & H2 & _).
  exists w1, w2. unfold strip. now rewrite <- H2.
Qed.

Lemma strip_length (s : str) : (length (strip s) <= length s)%nat.
Proof.
  unfold strip.
  pose proof (rstrip_by_length isspace (lstrip_by isspace s)).
  pose proof (lstrip_by_length isspace s). lia.
Qed.

Lemma strip_no_sep (s : str) : ~ In NL s -> ~ In NL (strip s).
Proof.
  intros Hs Hin. destruct (strip_decomp s) as (w1 & w2 & H).
  apply Hs. rewrite H. apply in_or_app. right. apply in_or_app. now left.
Qed.

(** Stripping a text whose lines are already stripped removes exactly its
    leading and trailing empty lines. *)
Fixpoint drop_blank (ls : list str) : list str :=
  match ls with
  | [] => []
  | l :: ls' => if is_empty l then drop_blank ls' else ls
  end.

Lemma drop_blank_Forall (P : str -> Prop) (ls : list str) :
  Forall P ls -> Forall P (drop_blank ls).
Proof.
  induction 1 as [|l ls Hl Hls IH]; simpl; [constructor|].
  destruct (is_empty l); [assumption | now constructor].
Qed.

Lemma drop_blank_map_rev (ls : list str) :
  drop_blank (map (@rev char) ls) = map (@rev char) (drop_blank ls).
Proof.
  induction ls as [|l ls IH]; simpl; [reflexivity|].
  destruct l as [|c l]; simpl; [assumption|].
  destruct (rev l ++ [c]) eqn:E; [|reflexivity].
  apply app_eq_nil in E. destruct E; discriminate.
Qed.

Lemma lstrip_join (ls : list str) :
  Forall (starts_clean isspace) ls ->
  lstrip_by isspace (join NL ls) = join NL (drop_blank ls).
Proof.
  induction 1 as [|l ls Hl Hls IH]; [reflexivity|].
  destruct l as [|c l].
  - destruct ls as [|l' ls]; [reflexivity|].
    rewrite join_cons by discriminate. simpl. exact IH.
  - simpl in Hl. simpl drop_blank.
    destruct ls as [|l' ls]; simpl; now rewrite Hl.
Qed.

Lemma rstrip_join (ls : list str) :
  Forall (fun l => starts_clean isspace (rev l)) ls ->
  rstrip_by isspace (join NL ls) = join NL (rev (drop_blank (rev ls))).
Proof.
  intros Hall. unfold rstrip_by. rewrite rev_join, lstrip_join.
  - rewrite rev_join, drop_blank_map_rev. f_equal.
    rewrite <- map_rev, map_map.
    erewrite map_ext; [apply map_id|]. intros; apply rev_involutive.
  - apply Forall_map, Forall_rev. exact Hall.
Qed.

(** The lines that survive [strip] of the joined text. *)
Definition trim_blank (ls : list str) : list str :=
  rev (drop_blank (rev (drop_blank ls))).

Lemma strip_join (ls : list str) :
  Forall stripped ls -> strip (join NL ls) = join NL (trim_blank ls).
Proof.
  intros Hall. unfold strip, trim_blank.
  rewrite lstrip_join.
  - apply rstrip_join. apply drop_blank_Forall.
    eapply Forall_impl; [|exact Hall]. now intros l [_ H].
  - eapply Forall_impl; [|exact Hall]. now intros l [H _].
Qed.

Lemma trim_blank_Forall (P : str -> Prop) (ls : list str) :
  Forall P ls -> Forall P (trim_blank ls).
Proof.
  intros H. unfold trim_blank.
  apply Forall_rev, drop_blank_Forall, Forall_rev, drop_blank_Forall, H.
Qed.

(** ** Runs of one character and their substitution *)

Section RunFacts.

Variable c : char.

Lemma repeat_shift (p : nat) (s : str) :
  repeat c p ++ c :: s = repeat c (S p) ++ s.
Proof. induction p as [|p IH]; simpl; [reflexivity | now rewrite IH]. Qed.

Lemma run_length_repeat (p : nat) : run_length c (repeat c p) = p.
Proof.
  induction p as [|p IH]; simpl; [reflexivity|].
  now rewrite Z.eqb_refl, IH.
Qed.

Lemma run_length_app_le (a b : str) :
  (run_length c a <= run_length c (a ++ b))%nat.
Proof.
  induction a as [|x a IH]; simpl; [lia|].
  destruct (x =? c); lia.
Qed.

Lemma run_length_app_stop (l : str) (d : char) (rest : str) :
  d <> c -> run_length c (l ++ d :: rest) = run_length c l.
Proof.
  intros Hd. induction l as [|x l IH]; simpl.
  - destruct (Z.eqb_spec d c); congruence.
  - destruct (x =? c); congruence.
Qed.

Lemma has_run_app_r (n : nat) (a b : str) :
  has_run c n (a ++ b) = false -> has_run c n b = false.
Proof.
  induction a as [|x a IH]; [trivial|].
  change ((x :: a) ++ b) with (x :: (a ++ b)).
  intros H. apply IH. simpl in H. now apply orb_false_iff in H.
Qed.

Lemma has_run_app_l (n : nat) (a b : str) :
  has_run c n (a ++ b) = false -> has_run c n a = false.
Proof.
  induction a as [|x a IH]; [reflexivity|].
  change ((x :: a) ++ b) with (x :: (a ++ b)).
  intros H. cbn [has_run] in *. apply orb_false_iff in H as [H1 H2].
  apply orb_false_iff. split; [|now apply IH].
  pose proof (run_length_app_le (x :: a) b) as Hle.
  change ((x :: a) ++ b) with (x :: (a ++ b)) in Hle.
  apply Nat.leb_gt in H1. apply Nat.leb_gt. lia.
Qed.

Lemma has_run_app_stop (n : nat) (l : str) (d : char) (rest : str) :
  (0 < n)%nat -> d <> c ->
  has_run c n (l ++ d :: rest) = has_run c n l || has_run c n rest.
Proof.
  intros Hn Hd. induction l as [|x l IH].
  - cbn [app has_run run_length].
    destruct (Z.eqb_spec d c); [congruence|].
    destruct (Nat.leb_spec n 0); [lia | reflexivity].
  - change ((x :: l) ++ d :: rest) with (x :: (l ++ d :: rest)).
    cbn [has_run]. rewrite IH, orb_assoc. f_equal. f_equal.
    pose proof (run_length_app_stop (x :: l) d rest Hd) as H.
    exact (f_equal (Nat.leb n) H).
Qed.

Lemma has_run_repeat (n p : nat) :
  (0 < n)%nat -> has_run c n (repeat c p) = (n <=? p)%nat.
Proof.
  intros Hn. induction p as [|p IH].
  - simpl. symmetry. apply Nat.leb_gt. lia.
  - change (repeat c (S p)) with (c :: repeat c p) at 1.
    cbn [has_run]. rewrite IH.
    change (c :: repeat c p) with (repeat c (S p)).
    rewrite run_length_repeat.
    destruct (Nat.leb_spec n (S p)), (Nat.leb_spec n p); simpl; try reflexivity; lia.
Qed.

Lemma has_run_repeat_bound (n p : nat) (s : str) :
  (0 < n)%nat -> has_run c n (repeat c p ++ s) = false -> (p < n)%nat.
Proof.
  intros Hn H. apply has_run_app_l in H.
  rewrite has_run_repeat in H by assumption. now apply Nat.leb_gt.
Qed.

Variable n : nat.
Variable repl : str.
Hypothesis n_pos : (0 < n)%nat.

Lemma emit_run_short (p : nat) : (p < n)%nat -> emit_run c n repl p = repeat c p.
Proof. intros H. unfold emit_run. now apply Nat.leb_gt in H as ->. Qed.

Lemma emit_run_long (p : nat) : (n <= p)%nat -> emit_run c n repl p = repl.
Proof. intros H. unfold emit_run. now apply Nat.leb_le in H as ->. Qed.

(** A text without a long run is left as it is. *)
Lemma re_sub_run_fixed (p : nat) (s : str) :
  has_run c n (repeat c p ++ s) = false ->
  re_sub_run c n repl p s = repeat c p ++ s.
Proof.
  revert p. induction s as [|x s IH]; intros p H.
  - simpl. rewrite app_nil_r in *. apply emit_run_short.
    rewrite has_run_repeat in H by assumption. now apply Nat.leb_gt.
  - simpl. destruct (Z.eqb_spec x c) as [->|Hx].
    + rewrite repeat_shift in *. now apply IH.
    + rewrite emit_run_short by (eapply has_run_repeat_bound; eauto).
      f_equal. f_equal. apply (IH 0%nat).
      apply has_run_app_r in H. simpl in H.
      now apply orb_false_iff in H.
Qed.

Hypothesis repl_short : (length repl < n)%nat.

Lemma emit_run_length (p : nat) : (length (emit_run c n repl p) <= p)%nat.
Proof.
  unfold emit_run. destruct (Nat.leb_spec n p).
  - lia.
  - now rewrite repeat_length.
Qed.

Lemma re_sub_run_length_le (p : nat) (s : str) :
  (length (re_sub_run c n repl p s) <= p + length s)%nat.
Proof.
  revert p. induction s as [|x s IH]; intros p; simpl.
  - pose proof (emit_run_length p). lia.
  - destruct (x =? c).
    + specialize (IH (S p)). lia.
    + rewrite length_app. simpl.
      pose proof (emit_run_length p). specialize (IH 0%nat). lia.
Qed.

(** A text with a long run gets strictly shorter. *)
Lemma re_sub_run_length_lt (p : nat) (s : str) :
  has_run c n (repeat c p ++ s) = true ->
  (length (re_sub_run c n repl p s) < p + length s)%nat.
Proof.
  revert p. induction s as [|x s IH]; intros p H.
  - simpl. rewrite app_nil_r, has_run_repeat in H by assumption.
    apply Nat.leb_le in H. rewrite emit_run_long by assumption. lia.
  - simpl. destruct (Z.eqb_spec x c) as [->|Hx].
    + rewrite repeat_shift in H. specialize (IH (S p) H). lia.
    + rewrite has_run_app_stop, has_run_repeat in H by assumption.
      rewrite length_app. simpl.
      apply orb_true_iff in H as [H|H].
      * apply Nat.leb_le in H. rewrite emit_run_long by assumption.
        pose proof (re_sub_run_length_le 0 s). lia.
      * specialize (IH 0%nat H). pose proof (emit_run_length p). lia.
Qed.

End RunFacts.

(** Collapsing runs of two or more into one leaves no run of two. *)
Lemma re_sub_run_pairs (c : char) (p : nat) (s : str) :
  has_run c 2 (re_sub_run c 2 [c] p s) = false.
Proof.
  assert (Hemit : forall q, emit_run c 2 [c] q = [] \/ emit_run c 2 [c] q = [c]).
  { intros [|[|q]]; cbv; auto. }
  revert p. induction s as [|x s IH]; intros p; simpl.
  - destruct (Hemit p) as [-> | ->]; simpl; [reflexivity|].
    now rewrite Z.eqb_refl.
  - destruct (Z.eqb_spec x c) as [->|Hx]; [apply IH|].
    rewrite has_run_app_stop by (lia || assumption).
    rewrite (IH 0%nat).
    destruct (Hemit p) as [-> | ->]; simpl; [reflexivity|].
    now rewrite Z.eqb_refl.
Qed.

(** ** [clean_text]: what one pass guarantees and when a second pass is idle *)

Lemma has_run_join (c : char) (n : nat) (ls : list str) :
  (0 < n)%nat -> NL <> c ->
  has_run c n (join NL ls) = false <->
  Forall (fun l => has_run c n l = false) ls.
Proof.
  intros Hn Hc. induction ls as [|l ls IH].
  - simpl. split; auto.
  - destruct ls as [|l' ls].
    + simpl. split; [auto | now inversion 1].
    + rewrite join_cons by discriminate.
      rewrite has_run_app_stop, orb_false_iff, IH by assumption.
      split; [intros []; now constructor | now inversion 1].
Qed.

Lemma has_run_strip (c : char) (n : nat) (s : str) :
  has_run c n s = false -> has_run c n (strip s) = false.
Proof.
  intros H. destruct (strip_decomp s) as (w1 & w2 & E).
  rewrite E in H. apply has_run_app_r in H. now apply has_run_app_l in H.
Qed.

Lemma join_map_strip_length (ls : list str) :
  (length (join NL (map strip ls)) <= length (join NL ls))%nat.
Proof.
  induction ls as [|l ls IH]; [simpl; lia|].
  destruct ls as [|l' ls].
  - simpl. apply strip_length.
  - change (map strip (l :: l' :: ls)) with (strip l :: map strip (l' :: ls)).
    rewrite (join_cons NL l) by discriminate.
    rewrite (join_cons NL (strip l)) by discriminate.
    rewrite !length_app. simpl length in *.
    pose proof (strip_length l). lia.
Qed.

Lemma map_fixed {A} (f : A -> A) (l : list A) :
  Forall (fun x => f x = x) l -> map f l = l.
Proof. induction 1; simpl; congruence. Qed.

(** The shape of every cleaned text: stripped, newline-free lines joined by
    newlines, no two spaces in a row, nothing to strip at either end. *)
Record cleaned (y : str) : Prop := {
  cleaned_lines : exists ls,
    y = join NL ls /\ Forall stripped ls /\ Forall (fun l => ~ In NL l) ls;
  cleaned_spaces : has_run SP 2 y = false;
  cleaned_ends : strip y = y
}.

Lemma clean_text_cleaned (x : str) : cleaned (clean_text x).
Proof.
  unfold clean_text. destruct x as [|c x]; cbn [is_empty].
  - split; [exists []; auto | reflexivity | reflexivity].
  - set (t := re_sub_run SP 2 [SP] 0 (re_sub_run NL 3 [NL; NL] 0 (c :: x))).
    set (ls := map strip (split NL t)).
    assert (Hs : Forall stripped ls).
    { apply Forall_map, Forall_forall. intros; apply strip_stripped. }
    assert (Hn : Forall (fun l => ~ In NL l) ls).
    { apply Forall_map. eapply Forall_impl; [|apply split_fields_no_sep].
      intros l. apply strip_no_sep. }
    assert (Hr : Forall (fun l => has_run SP 2 l = false) ls).
    { apply Forall_map.
      assert (Ht : has_run SP 2 (join NL (split NL t)) = false)
        by (rewrite join_split; apply re_sub_run_pairs).
      apply has_run_join in Ht; [|lia|discriminate].
      eapply Forall_impl; [|exact Ht]. intros l. apply has_run_strip. }
    rewrite strip_join by assumption. split.
    + exists (trim_blank ls). auto using trim_blank_Forall.
    + apply has_run_join; [lia|discriminate|]. now apply trim_blank_Forall.
    + rewrite <- strip_join by assumption.
      apply stripped_fixed, strip_stripped.
Qed.

Lemma clean_text_fixed (y : str) :
  cleaned y -> has_run NL 3 y = false -> clean_text y = y.
Proof.
  intros [(ls & Hy & Hs & Hn) Hsp He] H3.
  unfold clean_text. destruct (is_empty y) eqn:Hy0.
  - destruct y; [reflexivity | discriminate].
  - rewrite (re_sub_run_fixed NL 3 [NL; NL]) by (lia || exact H3).
    rewrite (re_sub_run_fixed SP 2 [SP]) by (lia || exact Hsp).
    cbn [repeat app].
    assert (Hls : ls <> []) by (intros ->; subst y; discriminate).
    rewrite Hy at 1. rewrite split_join by assumption.
    rewrite map_fixed.
    + now rewrite <- Hy.
    + eapply Forall_impl; [|exact Hs]. apply stripped_fixed.
Qed.

Lemma clean_text_length (y : str) :
  (length (clean_text y) <= length (re_sub_run NL 3 [NL; NL] 0 y))%nat.
Proof.
  unfold clean_text. destruct y as [|c y]; cbn [is_empty]; [simpl; lia|].
  set (t1 := re_sub_run NL 3 [NL; NL] 0 (c :: y)).
  set (t2 := re_sub_run SP 2 [SP] 0 t1).
  pose proof (strip_length (join NL (map strip (split NL t2)))).
  pose proof (join_map_strip_length (split NL t2)) as H2.
  rewrite join_split in H2.
  pose proof (re_sub_run_length_le SP 2 [SP]) as H3.
  specialize (H3 ltac:(lia) ltac:(simpl; lia) 0%nat t1). fold t2 in H3. lia.
Qed.

(** C2 (amended). A second pass of [clean_text] changes nothing exactly
    when the first pass left no run of three or more newlines.  Such a run
    can survive one pass: newline runs are collapsed before the lines are
    stripped, so lines holding only whitespace become empty lines after the
    collapse has already been done. *)
Theorem clean_text_idempotent_iff (x : str) :
  clean_text (clean_text x) = clean_text x <->
  has_run NL 3 (clean_text x) = false.
Proof.
  split.
  - intros Heq. destruct (has_run NL 3 (clean_text x)) eqn:H3; [|reflexivity].
    exfalso.
    pose proof (clean_text_length (clean_text x)) as Hle.
    pose proof (re_sub_run_length_lt NL 3 [NL; NL]) as Hlt.
    specialize (Hlt ltac:(lia) ltac:(simpl; lia) 0%nat (clean_text x) H3).
    rewrite Heq in Hle. simpl in Hlt. lia.
  - apply clean_text_fixed, clean_text_cleaned.
Qed.

(** C2 (as stated) fails: on ["a\n \n \nb"] the first pass yields
    ["a\n\n\nb"], which the second pass shortens to ["a\n\nb"]. *)
Lemma clean_text_not_idempotent :
  let x := py "a" ++ [NL; SP; NL; SP; NL] ++ py "b" in
  clean_text x = py "a" ++ [NL; NL; NL] ++ py "b" /\
  clean_text (clean_text x) = py "a" ++ [NL; NL] ++ py "b" /\
  clean_text (clean_text x) <> clean_text x.
Proof. repeat split. discriminate. Qed.

(** ** The scorer *)

(** The integer part of a numeric JSON value, if it is one: an integer as
    it is, a finite float truncated toward zero. *)
Definition number_trunc (v : json) : option Z :=
  match v with
  | JInt z => Some z
  | JFloat f => float_trunc f
  | _ => None
  end.

(** The value that the specification stores for a numeric answer:
    [max(1, min(10, round(v)))]. *)
Definition spec_stored (v : json) : option Z :=
  match v with
  | JInt z => Some (Z.max 1 (Z.min 10 z))
  | JFloat f => z <- float_round f;; Some (Z.max 1 (Z.min 10 z))
  | _ => None
  end.

Definition a_resume : ResumeData :=
  {| raw_text := py "Jane Doe - Engineer"; file_name := py "cv.txt";
     file_type := py ".txt"; sections := []; word_count := 4 |}.

Definition a_scorer : ResumeScorer := {| _score_explanations := JObj [] |}.

(** The answer of Scenario B; [7.6] is the double
    [0x1.e666666666666p+2]. *)
Definition scenario_B : dict :=
  [(py "clarity", JInt 12); (py "impact", JInt (-3));
   (py "relevance", JFloat 0x1.e666666666666p+2);
   (py "completeness", JInt 5); (py "ats_score", JInt 5)].

Definition answers (v : json) : request -> response :=
  fun _ => Message (Some v).

Example float_trunc_samples :
  float_trunc 0x1.e666666666666p+2%float = Some 7          (* 7.6 *)
  /\ float_trunc (-0x1.f333333333333p+1)%float = Some (-3) (* -3.9 *)
  /\ float_trunc 0.5%float = Some 0
  /\ float_trunc 12%float = Some 12
  /\ float_trunc nan = None
  /\ float_trunc infinity = None
  /\ float_round 0x1.e666666666666p+2%float = Some 8
  /\ float_round 0.5%float = Some 0
  /\ float_round 1.5%float = Some 2.
Proof. vm_compute. repeat split. Qed.

Lemma clamp_score_number (L : pylib) (v : json) (z : Z) :
  number_trunc v = Some z ->
  clamp_score L v = Some (Z.max 1 (Z.min 10 z)).
Proof.
  unfold clamp_score. destruct v; simpl; try discriminate.
  - now intros [= ->].
  - now intros ->.
Qed.

Lemma in_range_clamp (z : Z) : in_range (Z.max 1 (Z.min 10 z)) = true.
Proof. unfold in_range. apply andb_true_iff. split; apply Z.leb_le; lia. Qed.

Lemma ScoreResult_new_clamped (c i r k a : Z) :
  let m z := Z.max 1 (Z.min 10 z) in
  ScoreResult_new (m c) (m i) (m r) (m k) (m a)
  = Some {| clarity := m c; impact := m i; relevance := m r;
            completeness := m k; ats_score := m a |}.
Proof.
  intros m. unfold ScoreResult_new, valid_scores. cbn [clarity impact
    relevance completeness ats_score]. unfold m.
  now rewrite !in_range_clamp.
Qed.

(** C1 (amended). When the answer is a JSON object in which each of the
    five criteria is missing or a finite number, [score] stores, for every
    criterion, the integer part of the value (truncated toward zero, not
    rounded; [5] when missing) clamped into [[1, 10]]. *)
Theorem score_clamps_truncated (L : pylib) (self : ResumeScorer)
  (resume : ResumeData) (client : request -> response) (log : list request)
  (d : dict) (c i r k a : Z) :
  client (scoring_request resume) = Message (Some (JObj d)) ->
  number_trunc (dict_get d (py "clarity") (JInt 5)) = Some c ->
  number_trunc (dict_get d (py "impact") (JInt 5)) = Some i ->
  number_trunc (dict_get d (py "relevance") (JInt 5)) = Some r ->
  number_trunc (dict_get d (py "completeness") (JInt 5)) = Some k ->
  number_trunc (dict_get d (py "ats_score") (JInt 5)) = Some a ->
  fst (fst (score L self resume client log))
  = {| clarity := Z.max 1 (Z.min 10 c); impact := Z.max 1 (Z.min 10 i);
       relevance := Z.max 1 (Z.min 10 r);
       completeness := Z.max 1 (Z.min 10 k);
       ats_score := Z.max 1 (Z.min 10 a) |}
  /\ valid_scores (fst (fst (score L self resume client log))) = true.
Proof.
  intros Hresp Hc Hi Hr Hk Ha.
  assert (E : fst (fst (score L self resume client log))
              = {| clarity := Z.max 1 (Z.min 10 c);
                   impact := Z.max 1 (Z.min 10 i);
                   relevance := Z.max 1 (Z.min 10 r);
                   completeness := Z.max 1 (Z.min 10 k);
                   ats_score := Z.max 1 (Z.min 10 a) |}).
  { unfold score, gbind, create, ret. rewrite Hresp. unfold read_scores.
    rewrite (clamp_score_number L _ _ Hc), (clamp_score_number L _ _ Hi),
      (clamp_score_number L _ _ Hr), (clamp_score_number L _ _ Hk),
      (clamp_score_number L _ _ Ha).
    cbn [bind]. pose proof (ScoreResult_new_clamped c i r k a) as Hnew.
    cbv zeta in Hnew. rewrite Hnew. reflexivity. }
  split; [exact E|]. rewrite E. unfold valid_scores.
  cbn [clarity impact relevance completeness ats_score].
  now rewrite !in_range_clamp.
Qed.

(** Scenario B under the code: relevance [7.6] is stored as [7]. *)
Lemma score_scenario_B :
  fst (fst (score ascii_lib a_scorer a_resume (answers (JObj scenario_B)) []))
  = {| clarity := 10; impact := 1; relevance := 7; completeness := 5;
       ats_score := 5 |}
  /\ valid_scores
       (fst (fst (score ascii_lib a_scorer a_resume
                    (answers (JObj scenario_B)) []))) = true.
Proof.
  apply (score_clamps_truncated ascii_lib a_scorer a_resume
           (answers (JObj scenario_B)) [] scenario_B 12 (-3) 7 5 5);
    vm_compute; reflexivity.
Defined.

(** C1 (as stated) fails on Scenario B: the specification stores
    [round(7.6) = 8] for relevance, the code stores [int(7.6) = 7]. *)
Lemma score_does_not_round :
  let stored :=
    fst (fst (score ascii_lib a_scorer a_resume
                (answers (JObj scenario_B)) [])) in
  spec_stored (JFloat 0x1.e666666666666p+2) = Some 8 /\
  relevance stored = 7 /\
  stored <> {| clarity := 10; impact := 1; relevance := 8;
               completeness := 5; ats_score := 5 |}.
Proof. vm_compute. repeat split. discriminate. Qed.

(** The ways in which the [try] block of [score] raises: the client
    raises, the message is not JSON, the JSON value is not an object, or
    [int] rejects the value read for one of the criteria. *)
Inductive scoring_failure (L : pylib) : response -> Prop :=
  | scoring_gateway_error : scoring_failure L Raises
  | scoring_malformed_json : scoring_failure L (Message None)
  | scoring_not_an_object (v : json) :
      (forall d, v <> JObj d) -> scoring_failure L (Message (Some v))
  | scoring_bad_value (d : dict) (key : str) :
      In key criteria ->
      py_int L (dict_get d key (JInt 5)) = None ->
      scoring_failure L (Message (Some (JObj d))).

Lemma clamp_score_raises (L : pylib) (v : json) :
  py_int L v = None -> clamp_score L v = None.
Proof. unfold clamp_score. now intros ->. Qed.

Lemma read_scores_raises (L : pylib) (self : ResumeScorer) (d : dict)
  (key : str) :
  In key criteria -> py_int L (dict_get d key (JInt 5)) = None ->
  fst (read_scores L self (Some (JObj d))) = None.
Proof.
  intros Hin Hnone. apply clamp_score_raises in Hnone.
  unfold read_scores. cbn [fst].
  destruct (clamp_score L (dict_get d (py "clarity") (JInt 5))) eqn:E1;
  destruct (clamp_score L (dict_get d (py "impact") (JInt 5))) eqn:E2;
  destruct (clamp_score L (dict_get d (py "relevance") (JInt 5))) eqn:E3;
  destruct (clamp_score L (dict_get d (py "completeness") (JInt 5))) eqn:E4;
  destruct (clamp_score L (dict_get d (py "ats_score") (JInt 5))) eqn:E5;
  try reflexivity.
  exfalso. unfold criteria in Hin. simpl in Hin.
  destruct Hin as [<-|[<-|[<-|[<-|[<-|[]]]]]]; congruence.
Qed.

(** C5 (amended). When the scoring step fails (the client raises, the
    message is not a JSON object, or a criterion has a value that [int]
    rejects), [score] returns the neutral result with every criterion at
    [5], of overall [5.0] and grade [D]; it made its single request and
    raised nothing.  A missing criterion is not a failure: reading it
    yields [5] for that criterion alone. *)
Theorem score_fails_soft (L : pylib) (self : ResumeScorer)
  (resume : ResumeData) (client : request -> response) (log : list request) :
  scoring_failure L (client (scoring_request resume)) ->
  fst (fst (score L self resume client log)) = neutral_scores
  /\ snd (score L self resume client log) = log ++ [scoring_request resume]
  /\ overall neutral_scores = 5%float
  /\ grade neutral_scores = py "D"
  /\ (forall (d : dict) (key : str),
        dict_find d key = None ->
        clamp_score L (dict_get d key (JInt 5)) = Some 5).
Proof.
  intros Hfail. split; [|split; [|split; [|split]]].
  - unfold score, gbind, create, ret.
    inversion Hfail as [Hr | Hr | v Hv Hr | d key Hin Hnone Hr]; cbn [fst].
    + reflexivity.
    + reflexivity.
    + destruct v; try reflexivity. now elim (Hv fields).
    + pose proof (read_scores_raises L self d key Hin Hnone) as Hnone'.
      destruct (read_scores L self (Some (JObj d))) as [[res|] self'];
        [discriminate | reflexivity].
  - unfold score, gbind, create, ret. reflexivity.
  - vm_compute. reflexivity.
  - vm_compute. reflexivity.
  - intros d key Hmiss. unfold dict_get. rewrite Hmiss. reflexivity.
Qed.

Lemma score_fails_soft_on_transport_error :
  fst (fst (score ascii_lib a_scorer a_resume (fun _ => Raises) []))
  = neutral_scores
  /\ snd (score ascii_lib a_scorer a_resume (fun _ => Raises) [])
     = [] ++ [scoring_request a_resume]
  /\ overall neutral_scores = 5%float
  /\ grade neutral_scores = py "D"
  /\ (forall (d : dict) (key : str),
        dict_find d key = None ->
        clamp_score ascii_lib (dict_get d key (JInt 5)) = Some 5).
Proof.
  apply (score_fails_soft ascii_lib a_scorer a_resume (fun _ => Raises) []).
  apply scoring_gateway_error.
Defined.

(** C5 (as stated) fails for missing fields: the answer
    [{"clarity": 9}] lacks four criteria, yet the result is not the
    all-5 fallback. *)
Lemma score_missing_fields_not_neutral :
  let d := [(py "clarity", JInt 9)] in
  dict_find d (py "impact") = None /\
  fst (fst (score ascii_lib a_scorer a_resume (answers (JObj d)) []))
  = {| clarity := 9; impact := 5; relevance := 5; completeness := 5;
       ats_score := 5 |} /\
  fst (fst (score ascii_lib a_scorer a_resume (answers (JObj d)) []))
  <> neutral_scores.
Proof. vm_compute. repeat split. discriminate. Qed.

(** ** Section detection *)

(** The failures of section detection: the client raises, the message is
    not JSON, the JSON value is not an object, or the object holds a value
    that passes the test of the loop without being a string, which the
    constructor of [ResumeSection] rejects. *)
Inductive detection_failure : response -> Prop :=
  | detection_gateway_error : detection_failure Raises
  | detection_malformed_json : detection_failure (Message None)
  | detection_not_an_object (v : json) :
      (forall d, v <> JObj d) -> detection_failure (Message (Some v))
  | detection_invalid_content (d : dict) (k : str) (v : json) :
      In (k, v) d -> truthy v = true -> str_field v = None ->
      detection_failure (Message (Some (JObj d))).

Lemma build_sections_raises (items : dict) (acc : list ResumeSection)
  (k : str) (v : json) :
  In (k, v) items -> truthy v = true -> str_field v = None ->
  build_sections items acc = None.
Proof.
  intros Hin Hv Hs. revert acc.
  induction items as [|[k' v'] items IH]; intros acc; [contradiction|].
  cbn [build_sections]. destruct Hin as [[= -> ->]|Hin].
  - rewrite Hv. unfold ResumeSection_new. rewrite Hs.
    destruct v; try discriminate; reflexivity.
  - destruct (truthy v' && neq_str v' (py "null")); [|now apply IH].
    destruct (ResumeSection_new k' v'); [|reflexivity].
    cbn [bind]. now apply IH.
Qed.

(** C7. On every failure of section detection the result holds exactly one
    section, named ["full_resume"], whose content is the whole text of the
    resume (not the truncated text that was sent); the rest of the resume
    is unchanged. *)
Theorem detect_sections_falls_back (resume : ResumeData)
  (client : request -> response) (log : list request) :
  detection_failure (client (sections_request resume)) ->
  sections (fst (detect_sections resume client log))
  = [{| name := py "full_resume"; content := raw_text resume;
        start_index := 0; end_index := 0 |}]
  /\ length (sections (fst (detect_sections resume client log))) = 1%nat
  /\ raw_text (fst (detect_sections resume client log)) = raw_text resume.
Proof.
  intros Hfail. unfold detect_sections, gbind, create, ret. cbn [fst].
  inversion Hfail as [Hr | Hr | v Hv Hr | d k v Hin Hv Hs Hr];
    try (repeat split; reflexivity).
  - destruct v; try (repeat split; reflexivity). now elim (Hv fields).
  - unfold read_sections. rewrite (build_sections_raises d [] k v Hin Hv Hs).
    repeat split; reflexivity.
Qed.

Lemma detect_sections_falls_back_on_malformed_json :
  sections (fst (detect_sections a_resume (fun _ => Message None) []))
  = [{| name := py "full_resume"; content := raw_text a_resume;
        start_index := 0; end_index := 0 |}]
  /\ length (sections (fst (detect_sections a_resume
                              (fun _ => Message None) []))) = 1%nat
  /\ raw_text (fst (detect_sections a_resume (fun _ => Message None) []))
     = raw_text a_resume.
Proof.
  apply (detect_sections_falls_back a_resume (fun _ => Message None) []).
  apply detection_malformed_json.
Defined.

(** A value of the answer that is content or a null marker: a string
    (among them the literal ["null"]) or JSON [null]. *)
Definition content_or_null (v : json) : bool :=
  match v with
  | JStr _ | JNull => true
  | _ => false
  end.

(** An item for which a section is built: a non-empty string other than
    ["null"]. *)
Definition has_content (kv : str * json) : bool :=
  match snd kv with
  | JStr s => negb (is_empty s) && negb (str_eqb s (py "null"))
  | _ => false
  end.

Definition section_of (kv : str * json) : ResumeSection :=
  {| name := fst kv;
     content := match snd kv with JStr s => s | _ => [] end;
     start_index := 0; end_index := 0 |}.

Definition taxonomy : list str :=
  [py "contact"; py "summary"; py "experience"; py "education";
   py "skills"; py "projects"; py "other"].

Fixpoint index_of (k : str) (l : list str) : nat :=
  match l with
  | [] => 0
  | x :: l' => if str_eqb x k then 0 else S (index_of k l')
  end.

Fixpoint increasing (l : list nat) : bool :=
  match l with
  | [] => true
  | a :: l' =>
      match l' with
      | [] => true
      | b :: _ => (a <? b)%nat && increasing l'
      end
  end.

(** Names listed in the declared order of the taxonomy. *)
Definition in_taxonomy_order (names : list str) : bool :=
  increasing (map (fun k => index_of k taxonomy) names).

Lemma increasing_cons (a : nat) (l : list nat) :
  increasing (a :: l) = true <->
  Forall (fun b => (a < b)%nat) l /\ increasing l = true.
Proof.
  revert a. induction l as [|b l IH]; intros a.
  - simpl. split; auto.
  - change (increasing (a :: b :: l))
      with ((a <? b)%nat && increasing (b :: l)).
    rewrite andb_true_iff, Nat.ltb_lt. split.
    + intros [Hab Hl]. split; [|assumption]. constructor; [assumption|].
      apply IH in Hl as [Hall _].
      eapply Forall_impl; [|exact Hall]. intros; simpl in *; lia.
    + intros [Hall Hl]. inversion Hall; subst. auto.
Qed.

Lemma increasing_filter {A} (f : A -> nat) (p : A -> bool) (l : list A) :
  increasing (map f l) = true -> increasing (map f (filter p l)) = true.
Proof.
  induction l as [|x l IH]; [trivial|].
  cbn [map filter]. intros H. apply increasing_cons in H as [Hall Hl].
  destruct (p x); [|now apply IH].
  cbn [map]. apply increasing_cons. split; [|now apply IH].
  apply Forall_map, Forall_forall. intros y Hy.
  apply filter_In in Hy as [Hy _].
  rewrite Forall_forall in Hall. apply Hall. now apply in_map.
Qed.

Lemma build_sections_content (items : dict) (acc : list ResumeSection) :
  forallb (fun kv => content_or_null (snd kv)) items = true ->
  build_sections items acc
  = Some (acc ++ map section_of (filter has_content items)).
Proof.
  revert acc. induction items as [|[k v] items IH]; intros acc Hall.
  - simpl. now rewrite app_nil_r.
  - cbn [forallb snd] in Hall. apply andb_true_iff in Hall as [Hv Hall].
    cbn [build_sections filter]. unfold has_content at 1. cbn [snd].
    destruct v as [| | | |s| |]; try discriminate; cbn [truthy neq_str andb].
    + now apply IH.
    + destruct (negb (is_empty s) && negb (str_eqb s (py "null"))).
      * cbn [ResumeSection_new str_field bind]. rewrite IH by assumption.
        cbn [map]. now rewrite <- app_assoc.
      * now apply IH.
Qed.

(** C3 (amended). For an answer that is a JSON object whose values are
    strings or null, [detect_sections] builds one section per item whose
    value is a non-empty string other than ["null"], named by the key and
    holding the value, in the order of the items in the answer.  The
    sections follow the taxonomy's order when the answer lists its keys in
    that order. *)
Theorem detect_sections_in_answer_order (resume : ResumeData)
  (client : request -> response) (log : list request) (d : dict) :
  client (sections_request resume) = Message (Some (JObj d)) ->
  forallb (fun kv => content_or_null (snd kv)) d = true ->
  sections (fst (detect_sections resume client log))
  = map section_of (filter has_content d)
  /\ map name (sections (fst (detect_sections resume client log)))
     = map fst (filter has_content d)
  /\ (in_taxonomy_order (map fst d) = true ->
      in_taxonomy_order
        (map name (sections (fst (detect_sections resume client log))))
      = true).
Proof.
  intros Hresp Hall.
  assert (E : sections (fst (detect_sections resume client log))
              = map section_of (filter has_content d)).
  { unfold detect_sections, gbind, create, ret. cbn [fst]. rewrite Hresp.
    unfold read_sections. now rewrite build_sections_content. }
  rewrite E. split; [reflexivity|]. rewrite map_map. split; [reflexivity|].
  unfold in_taxonomy_order. rewrite !map_map. cbn [section_of name].
  apply increasing_filter.
Qed.

Definition skills_then_contact : dict :=
  [(py "skills", JStr (py "Python, SQL")); (py "contact", JStr (py "Jane Doe"));
   (py "summary", JNull); (py "other", JStr (py "null"))].

Lemma detect_sections_answer_order_example :
  sections (fst (detect_sections a_resume
                   (answers (JObj skills_then_contact)) []))
  = map section_of (filter has_content skills_then_contact)
  /\ map name (sections (fst (detect_sections a_resume
                                (answers (JObj skills_then_contact)) [])))
     = map fst (filter has_content skills_then_contact)
  /\ (in_taxonomy_order (map fst skills_then_contact) = true ->
      in_taxonomy_order
        (map name (sections (fst (detect_sections a_resume
                                    (answers (JObj skills_then_contact)) []))))
      = true).
Proof.
  apply (detect_sections_in_answer_order a_resume
           (answers (JObj skills_then_contact)) [] skills_then_contact);
    reflexivity.
Defined.

(** C3 (as stated) fails: for an answer listing [skills] before
    [contact], the sections come out as [skills, contact], which is not the
    taxonomy's order. *)
Lemma detect_sections_not_taxonomy_order :
  let names :=
    map name (sections (fst (detect_sections a_resume
                               (answers (JObj skills_then_contact)) []))) in
  names = [py "skills"; py "contact"] /\
  in_taxonomy_order names = false /\
  in_taxonomy_order [py "contact"; py "skills"] = true.
Proof. vm_compute. repeat split. Qed.

(** ** The rewriter *)

(** The failures of a rewrite request: the client raises, the message
    does not parse as JSON, or the JSON value is not an object. *)
Inductive rewrite_failure : response -> Prop :=
  | rewrite_gateway_error : rewrite_failure Raises
  | rewrite_malformed_json : rewrite_failure (Message None)
  | rewrite_not_an_object (v : json) :
      (forall d, v <> JObj d) -> rewrite_failure (Message (Some v)).

(** C8. On the empty list [rewrite_bullets] returns the empty list and
    leaves the log of requests as it was: the client is not called.  On a
    non-empty list whose request fails it returns the empty list, having
    made that one request. *)
Theorem rewrite_bullets_fails_soft (client : request -> response)
  (log : list request) (b : str) (bs : list str) :
  rewrite_bullets [] client log = ([], log)
  /\ (rewrite_failure (client (rewrite_request (b :: bs))) ->
      rewrite_bullets (b :: bs) client log
      = ([], log ++ [rewrite_request (b :: bs)])).
Proof.
  split; [reflexivity|].
  intros Hfail. unfold rewrite_bullets, gbind, create, ret. cbn [is_empty].
  inversion Hfail as [Hr | Hr | v Hv Hr]; try reflexivity.
  destruct v; try reflexivity. now elim (Hv fields).
Qed.

Lemma rewrite_bullets_fails_soft_example :
  let bullet := py "Helped with customer service" in
  rewrite_bullets [] (fun _ => Raises) [] = ([], [])
  /\ rewrite_bullets [bullet] (fun _ => Raises) []
     = ([], [] ++ [rewrite_request [bullet]]).
Proof.
  intros bullet.
  destruct (rewrite_bullets_fails_soft (fun _ => Raises) [] bullet [])
    as [Hempty Hfail].
  split; [exact Hempty|]. apply Hfail. apply rewrite_gateway_error.
Defined.

(** ** Text files *)

Section ParseTxt.

Variable utf_8 utf_16 cp1252 : bytes -> option str.
Variable utf_8_replace : bytes -> str.

(** C10. [_parse_txt] always returns a text: the [latin-1] attempt, third
    in the order, decodes every byte sequence, so the [cp1252] attempt and
    the final decoding with replacement are never reached.  The text is
    that of the first of [utf-8], [utf-16] and [latin-1] that accepts the
    bytes. *)
Theorem parse_txt_total (file_bytes : bytes) :
  let run := _parse_txt utf_8 utf_16 cp1252 utf_8_replace file_bytes in
  decode utf_8 utf_16 cp1252 LATIN_1 file_bytes = Some (latin_1 file_bytes)
  /\ replaced run = false
  /\ ~ In CP1252 (attempts run)
  /\ attempts run = firstn (length (attempts run)) [UTF_8; UTF_16; LATIN_1]
  /\ text run = match utf_8 file_bytes with
                | Some s => s
                | None => match utf_16 file_bytes with
                          | Some s => s
                          | None => latin_1 file_bytes
                          end
                end.
Proof.
  unfold _parse_txt. cbn [try_encodings decode app].
  destruct (utf_8 file_bytes); [|destruct (utf_16 file_bytes)];
    cbn [text attempts replaced length firstn];
    (split; [reflexivity|]); (split; [reflexivity|]);
    (split; [|split; reflexivity]);
    simpl; intuition discriminate.
Qed.

End ParseTxt.

Lemma latin_1_length (b : bytes) : length (latin_1 b) = length b.
Proof. apply length_map. Qed.

Lemma latin_1_code_points (b : bytes) :
  Forall (fun c => 0 <= c < 256) (latin_1 b).
Proof.
  apply Forall_map, Forall_forall. intros x _.
  destruct x; vm_compute; split; congruence.
Qed.

(** ** Sorting by a key *)

Section SortedFacts.

Context {A : Type}.
Variable key : A -> Z.

(** [before] is the order of the items in the list given to [sorted]. *)
Variable before : A -> A -> Prop.

Definition key_then_before (a b : A) : Prop :=
  key a < key b \/ (key a = key b /\ before a b).

Lemma insert_sorted_perm (x : A) (l : list A) :
  Permutation (insert_sorted key x l) (x :: l).
Proof.
  induction l as [|y l IH]; simpl; [reflexivity|].
  destruct (key x <? key y); [reflexivity|].
  rewrite IH. apply perm_swap.
Qed.

Lemma fold_insert_perm (l acc : list A) :
  Permutation (fold_left (fun acc x => insert_sorted key x acc) l acc)
    (acc ++ l).
Proof.
  revert acc. induction l as [|x l IH]; intros acc; simpl.
  - now rewrite app_nil_r.
  - rewrite IH, insert_sorted_perm. apply Permutation_middle.
Qed.

Lemma sorted_perm (l : list A) : Permutation (sorted key l) l.
Proof. apply (fold_insert_perm l []). Qed.

Lemma insert_sorted_stable (x : A) (l : list A) :
  StronglySorted key_then_before l ->
  Forall (fun a => before a x) l ->
  StronglySorted key_then_before (insert_sorted key x l).
Proof.
  induction 1 as [|y l Hl IH Hy]; intros Hbefore; simpl.
  - repeat constructor.
  - inversion Hbefore as [|? ? Hyx Hrest]; subst.
    destruct (Z.ltb_spec (key x) (key y)) as [Hlt|Hge].
    + constructor; [now constructor|].
      constructor; [now left|].
      eapply Forall_impl; [|exact Hy].
      intros z [Hz|[Hz _]]; left; lia.
    + constructor; [now apply IH|].
      eapply Permutation_Forall; [symmetry; apply insert_sorted_perm|].
      constructor; [|assumption].
      destruct (Z.eq_dec (key y) (key x)); [right; auto | left; lia].
Qed.

Lemma fold_insert_stable (l acc : list A) :
  StronglySorted key_then_before acc ->
  StronglySorted before l ->
  Forall (fun x => Forall (fun a => before a x) acc) l ->
  StronglySorted key_then_before
    (fold_left (fun acc x => insert_sorted key x acc) l acc).
Proof.
  revert acc. induction l as [|x l IH]; intros acc Hacc Hl Hcross; simpl.
  - assumption.
  - inversion Hl as [|? ? Hl' Hx]; subst.
    inversion Hcross as [|? ? Hxacc Hcross']; subst.
    apply IH; [now apply insert_sorted_stable | assumption |].
    rewrite Forall_forall in *. intros z Hz.
    eapply Permutation_Forall; [symmetry; apply insert_sorted_perm|].
    constructor; [now apply Hx | now apply Hcross'].
Qed.

(** [sorted] is stable: its result is ordered by key, and items of equal
    key stay in the order they had. *)
Lemma sorted_stable (l : list A) :
  StronglySorted before l -> StronglySorted key_then_before (sorted key l).
Proof.
  intros Hl. apply fold_insert_stable; [constructor | assumption |].
  apply Forall_forall. intros; constructor.
Qed.

End SortedFacts.

Lemma StronglySorted_map_in {A B} (R : A -> A -> Prop) (R' : B -> B -> Prop)
  (f : A -> B) (l : list A) :
  (forall a b, In a l -> In b l -> R a b -> R' (f a) (f b)) ->
  StronglySorted R l -> StronglySorted R' (map f l).
Proof.
  intros Himp Hs. induction Hs as [|a l Hl IH Ha]; simpl; constructor.
  - apply IH. intros; apply Himp; simpl; auto.
  - apply Forall_map, Forall_forall. intros b Hb.
    rewrite Forall_forall in Ha. apply Himp; simpl; auto.
Qed.

(** ** The priority order of the criteria *)

(** The score stored for a criterion: the field of the [ScoreResult] that
    bears the name, read from the record itself. *)
Definition criterion_score (scores : ScoreResult) (k : str) : Z :=
  if str_eqb k (py "clarity") then clarity scores
  else if str_eqb k (py "impact") then impact scores
  else if str_eqb k (py "relevance") then relevance scores
  else if str_eqb k (py "completeness") then completeness scores
  else if str_eqb k (py "ats_score") then ats_score scores
  else 0.

(** [a] comes before [b] in the priority order: a lower score, or the same
    score and an earlier declaration. *)
Definition weaker_first (scores : ScoreResult) (a b : str) : Prop :=
  criterion_score scores a < criterion_score scores b
  \/ (criterion_score scores a = criterion_score scores b
      /\ (index_of a criteria < index_of b criteria)%nat).

Definition declared_before (a b : str * Z) : Prop :=
  (index_of (fst a) criteria < index_of (fst b) criteria)%nat.

Lemma score_dict_declared (scores : ScoreResult) :
  StronglySorted declared_before (score_dict scores).
Proof.
  unfold score_dict, declared_before.
  repeat (constructor; [|repeat constructor; vm_compute; lia]).
  constructor.
Qed.

Lemma score_dict_lookup (scores : ScoreResult) (kv : str * Z) :
  In kv (score_dict scores) -> snd kv = criterion_score scores (fst kv).
Proof.
  unfold score_dict. simpl.
  intros [<-|[<-|[<-|[<-|[<-|[]]]]]]; reflexivity.
Qed.

(** C9. For every [ScoreResult], [get_improvement_priority] returns a
    permutation of the five criterion names, ordered by ascending score,
    names of equal score keeping the order of declaration (clarity, impact,
    relevance, completeness, ats_score).  The score of a name is the field
    of the [ScoreResult] that bears it ([criterion_score]). *)
Theorem priority_weakest_first (scores : ScoreResult) :
  Permutation (get_improvement_priority scores) criteria
  /\ StronglySorted (weaker_first scores) (get_improvement_priority scores)
  /\ length (get_improvement_priority scores) = 5%nat.
Proof.
  unfold get_improvement_priority.
  pose proof (sorted_perm snd (score_dict scores)) as Hperm.
  split; [|split].
  - change criteria with (map fst (score_dict scores)).
    now apply Permutation_map.
  - apply (StronglySorted_map_in
             (key_then_before snd declared_before) (weaker_first scores)).
    + intros a b Ha Hb HR.
      apply (Permutation_in _ Hperm), score_dict_lookup in Ha.
      apply (Permutation_in _ Hperm), score_dict_lookup in Hb.
      unfold weaker_first. rewrite <- Ha, <- Hb. exact HR.
    + apply sorted_stable, score_dict_declared.
  - rewrite length_map, (Permutation_length Hperm). reflexivity.
Qed.

Example priority_with_ties :
  get_improvement_priority
    {| clarity := 7; impact := 3; relevance := 7; completeness := 3;
       ats_score := 9 |}
  = [py "impact"; py "completeness"; py "clarity"; py "relevance";
     py "ats_score"].
Proof. reflexivity. Qed.

(** ** Bullet extraction *)

Lemma len_app_one {A} (l : list A) (x : A) : len (l ++ [x]) = len l + 1.
Proof. unfold len. rewrite length_app. simpl. lia. Qed.

Section BulletFacts.

Variable L : pylib.

(** One line adds at most one bullet, longer than 20 characters. *)
Lemma try_patterns_step (ps : list (str -> option str)) (line : str)
  (bullets : list str) :
  try_patterns ps line bullets = bullets
  \/ exists b, try_patterns ps line bullets = bullets ++ [b] /\ 20 < len b.
Proof.
  induction ps as [|pattern ps IH]; simpl; [now left|].
  destruct (pattern line) as [g|]; [|exact IH].
  destruct (Z.ltb_spec 20 (len (strip g))); [|now left].
  right. now exists (strip g).
Qed.

Lemma scan_patterns_bounds (max_bullets : Z) (lines bullets : list str) :
  Forall (fun b => 20 < len b) bullets ->
  len (scan_patterns L max_bullets lines bullets)
    <= Z.max max_bullets (len bullets + 1)
  /\ Forall (fun b => 20 < len b) (scan_patterns L max_bullets lines bullets).
Proof.
  revert bullets. induction lines as [|line lines IH]; intros bullets Hall.
  - simpl. split; [lia | assumption].
  - cbn [scan_patterns]. destruct (is_empty (strip line)); [now apply IH|].
    destruct (try_patterns_step (patterns L) (strip line) bullets)
      as [-> | (b & -> & Hb)].
    + destruct (Z.leb_spec max_bullets (len bullets)).
      * split; [lia | assumption].
      * now apply IH.
    + assert (Hall' : Forall (fun b => 20 < len b) (bullets ++ [b])).
      { apply Forall_app. split; [assumption | now constructor]. }
      destruct (Z.leb_spec max_bullets (len (bullets ++ [b]))) as [Hge|Hlt].
      * rewrite len_app_one. split; [lia | assumption].
      * destruct (IH _ Hall') as [Hlen Hitems]. split; [|assumption].
        rewrite len_app_one in *. lia.
Qed.

Lemma scan_verbs_bounds (max_bullets : Z) (lines bullets : list str) :
  Forall (fun b => 25 < len b) bullets ->
  len (scan_verbs L max_bullets lines bullets)
    <= Z.max max_bullets (len bullets + 1)
  /\ Forall (fun b => 25 < len b) (scan_verbs L max_bullets lines bullets).
Proof.
  revert bullets. induction lines as [|line lines IH]; intros bullets Hall.
  - simpl. split; [lia | assumption].
  - cbn [scan_verbs].
    match goal with
    | |- context [if ?c && (25 <? len (strip line)) then _ else _] =>
        destruct c; cbn [andb]
    end.
    + destruct (Z.ltb_spec 25 (len (strip line))) as [Hlong|Hshort].
      * assert (Hall' : Forall (fun b => 25 < len b) (bullets ++ [strip line])).
        { apply Forall_app. split; [assumption | now constructor]. }
        destruct (Z.leb_spec max_bullets (len (bullets ++ [strip line]))).
        -- rewrite len_app_one. split; [lia | assumption].
        -- destruct (IH _ Hall') as [Hlen Hitems]. split; [|assumption].
           rewrite len_app_one in *. lia.
      * destruct (Z.leb_spec max_bullets (len bullets)).
        -- split; [lia | assumption].
        -- now apply IH.
    + destruct (Z.leb_spec max_bullets (len bullets)).
      * split; [lia | assumption].
      * now apply IH.
Qed.

(** What holds of [extract_bullet_points] for every text and every bound:
    the result is that of the first loop unless that one is empty, and only
    then that of the second loop; the items of the first loop are longer
    than 20 characters and those of the second longer than 25; and the
    result has at most [max_bullets] items when [max_bullets] is at least
    1, at most one item otherwise. *)
Lemma extract_bullet_points_bounds (text : str) (max_bullets : Z) :
  let first := scan_patterns L max_bullets (split NL text) [] in
  let second := scan_verbs L max_bullets (split NL text) [] in
  Forall (fun b => 20 < len b) first
  /\ Forall (fun b => 25 < len b) second
  /\ (first <> [] -> extract_bullet_points L text max_bullets = first)
  /\ (first = [] -> extract_bullet_points L text max_bullets = second)
  /\ len (extract_bullet_points L text max_bullets) <= Z.max max_bullets 1
  /\ (1 <= max_bullets ->
      len (extract_bullet_points L text max_bullets) <= max_bullets).
Proof.
  intros first second.
  destruct (scan_patterns_bounds max_bullets (split NL text) [])
    as [Hlen1 Hitems1]; [constructor|].
  destruct (scan_verbs_bounds max_bullets (split NL text) [])
    as [Hlen2 Hitems2]; [constructor|].
  fold first in Hlen1, Hitems1. fold second in Hlen2, Hitems2.
  change (len (@nil str)) with 0 in *.
  assert (Hsel : extract_bullet_points L text max_bullets
                 = if is_empty first then second else first).
  { unfold extract_bullet_points. fold first.
    destruct first; reflexivity. }
  split; [assumption|]. split; [assumption|].
  split; [|split; [|split]].
  - intros Hne. rewrite Hsel. destruct first; [congruence | reflexivity].
  - intros He. rewrite Hsel, He. reflexivity.
  - rewrite Hsel. destruct (is_empty first); lia.
  - intros Hmax. rewrite Hsel. destruct (is_empty first); lia.
Qed.

End BulletFacts.

(** Scenario A. *)
Example extract_bullets_scenario_A :
  extract_bullet_points ascii_lib
    (py "- Led a team of 5 engineers to deliver project X" ++ [NL]
     ++ py "- helped with stuff") 10
  = [py "Led a team of 5 engineers to deliver project X"].
Proof. vm_compute. reflexivity. Qed.

Example extract_bullets_by_verbs :
  extract_bullet_points ascii_lib
    (py "Summary" ++ [NL]
     ++ py "Developed billing services for three markets") 10
  = [py "Developed billing services for three markets"].
Proof. vm_compute. reflexivity. Qed.

(** C6 at [max_bullets = 0]: the bound is tested only after a bullet has
    been appended, so one bullet is returned where the bound allows
    none. *)
Lemma extract_bullets_exceeds_zero_bound :
  extract_bullet_points ascii_lib
    (py "- Led a team of 5 engineers to deliver project X") 0
  = [py "Led a team of 5 engineers to deliver project X"]
  /\ ~ len (extract_bullet_points ascii_lib
              (py "- Led a team of 5 engineers to deliver project X") 0) <= 0.
Proof. vm_compute. split; [reflexivity | intros H; now apply H]. Qed.

(** ** The overall score and the grade *)

Lemma str_eqb_eq (a b : str) : str_eqb a b = true -> a = b.
Proof.
  revert b. induction a as [|x a IH]; destruct b as [|y b]; simpl;
    try discriminate; [reflexivity|].
  intros H. apply andb_true_iff in H as [Hxy Hab].
  apply Z.eqb_eq in Hxy. subst. f_equal. now apply IH.
Qed.

Definition score_range : list Z := [1; 2; 3; 4; 5; 6; 7; 8; 9; 10].

Lemma in_range_listed (z : Z) : in_range z = true -> In z score_range.
Proof.
  unfold in_range. rewrite andb_true_iff, !Z.leb_le. intros [Hlo Hhi].
  assert (H : z = 1 \/ z = 2 \/ z = 3 \/ z = 4 \/ z = 5 \/ z = 6 \/ z = 7
              \/ z = 8 \/ z = 9 \/ z = 10) by lia.
  unfold score_range. simpl. intuition.
Qed.

(** Twenty times the exact weighted sum
    [0.20c + 0.25i + 0.20r + 0.15k + 0.20a]. *)
Definition exact_twentieths (s : ScoreResult) : Z :=
  4 * clarity s + 5 * impact s + 4 * relevance s + 3 * completeness s
  + 4 * ats_score s.

(** The grade table on an overall score of [t] tenths. *)
Definition grade_by_tenths (t : Z) : str :=
  if 90 <=? t then py "A+"
  else if 80 <=? t then py "A"
  else if 70 <=? t then py "B"
  else if 60 <=? t then py "C"
  else if 50 <=? t then py "D"
  else py "F".

(** The integer nearest to ten times the exact value of a float. *)
Definition nearest_tenths (x : float) : Z :=
  match Prim2SF x with
  | S754_finite s m e =>
      let t := round_scaled (10 * Z.pos m) e in if s then - t else t
  | _ => 0
  end.

(** The float sums that the five stored scores can produce are few: they
    are enumerated term by term, each with twenty times the exact sum it
    approximates. *)
Definition partial : Type := float * Z.

Definition same_partial (p q : partial) : bool :=
  PrimFloat.Leibniz.eqb (fst p) (fst q) && (snd p =? snd q).

Definition insert_partial (p : partial) (l : list partial) : list partial :=
  if existsb (same_partial p) l then l else p :: l.

Definition add_term (w : float) (k : Z) (pv : partial * Z) : partial :=
  ((fst (fst pv) + float_of_int (snd pv) * w)%float,
   snd (fst pv) + k * snd pv).

Definition next_partials (w : float) (k : Z) (l : list partial)
  : list partial :=
  fold_left (fun acc pv => insert_partial (add_term w k pv) acc)
    (list_prod l score_range) [].

Definition first_partials : list partial :=
  map (fun v => ((float_of_int v * weight_clarity)%float, 4 * v)) score_range.

Definition final_partials : list partial :=
  next_partials weight_ats_score 4
    (next_partials weight_completeness 3
       (next_partials weight_relevance 4
          (next_partials weight_impact 5 first_partials))).

Lemma same_partial_eq (p q : partial) : same_partial p q = true -> p = q.
Proof.
  destruct p as [x e], q as [y f]. unfold same_partial. cbn [fst snd].
  rewrite andb_true_iff. intros [Hx He].
  apply FloatAxioms.Leibniz.eqb_spec in Hx. apply Z.eqb_eq in He.
  now subst.
Qed.

Lemma insert_partial_in (p q : partial) (l : list partial) :
  q = p \/ In q l -> In q (insert_partial p l).
Proof.
  unfold insert_partial. destruct (existsb (same_partial p) l) eqn:E.
  - intros [->|H]; [|assumption].
    apply existsb_exists in E as (r & Hr & Hpr).
    apply same_partial_eq in Hpr. now subst.
  - intros [->|H]; [now left | now right].
Qed.

Lemma fold_insert_in {B} (f : B -> partial) (xs : list B)
  (acc : list partial) (q : partial) :
  In q acc \/ (exists x, In x xs /\ q = f x) ->
  In q (fold_left (fun acc x => insert_partial (f x) acc) xs acc).
Proof.
  revert acc. induction xs as [|x xs IH]; intros acc H; simpl.
  - destruct H as [H|(x & [] & _)]. exact H.
  - apply IH. destruct H as [H|(y & [<-|Hy] & ->)].
    + left. apply insert_partial_in. now right.
    + left. apply insert_partial_in. now left.
    + right. now exists y.
Qed.

Lemma next_partials_in (w : float) (k : Z) (l : list partial) (p : partial)
  (v : Z) :
  In p l -> In v score_range -> In (add_term w k (p, v)) (next_partials w k l).
Proof.
  intros Hp Hv. unfold next_partials. apply fold_insert_in. right.
  exists (p, v). split; [now apply in_prod | reflexivity].
Qed.

Lemma weighted_sum_listed (s : ScoreResult) :
  valid_scores s = true ->
  In (weighted_sum s, exact_twentieths s) final_partials.
Proof.
  unfold valid_scores. rewrite !andb_true_iff.
  intros [[[[Hc Hi] Hr] Hk] Ha].
  apply in_range_listed in Hc, Hi, Hr, Hk, Ha.
  unfold final_partials, weighted_sum, exact_twentieths.
  apply (next_partials_in weight_ats_score 4 _ (_, _) (ats_score s));
    [|assumption].
  apply (next_partials_in weight_completeness 3 _ (_, _) (completeness s));
    [|assumption].
  apply (next_partials_in weight_relevance 4 _ (_, _) (relevance s));
    [|assumption].
  apply (next_partials_in weight_impact 5 _ (_, _) (impact s)); [|assumption].
  unfold first_partials.
  apply (in_map (fun v => ((float_of_int v * weight_clarity)%float, 4 * v))).
  assumption.
Qed.

(** What is checked of each listed sum [x] with exact value [e / 20]:
    [round(x, 1)] is the double of [t / 10] for an integer [t] nearest to
    [e / 2], and the grade tests on it agree with the table on [t]. *)
Definition rounds_well (p : partial) : bool :=
  let o := py_round1 (fst p) in
  let t := nearest_tenths o in
  PrimFloat.Leibniz.eqb o (float_of_int t / float_of_int 10)%float
  && (Z.abs (2 * t - snd p) <=? 1)
  && str_eqb (grade_of_score o) (grade_by_tenths t).

Lemma final_partials_round_well : forallb rounds_well final_partials = true.
Proof. vm_compute. reflexivity. Qed.

Lemma weight_products_commute (v : Z) :
  In v score_range ->
  (float_of_int v * 0x1.999999999999ap-3
   = 0x1.999999999999ap-3 * float_of_int v
   /\ float_of_int v * 0.25 = 0.25 * float_of_int v
   /\ float_of_int v * 0x1.3333333333333p-3
      = 0x1.3333333333333p-3 * float_of_int v)%float.
Proof.
  unfold score_range. simpl.
  intros [<-|[<-|[<-|[<-|[<-|[<-|[<-|[<-|[<-|[<-|[]]]]]]]]]]];
    vm_compute; repeat split.
Qed.

(** C4. For every stored [ScoreResult] (five integers in [[1, 10]]),
    [overall] is [round(0.20c + 0.25i + 0.20r + 0.15k + 0.20a, 1)]
    computed from the five stored scores in double precision; it is the
    double of [t / 10] for an integer [t] nearest to ten times the exact
    weighted sum, and [grade] follows the closed-above thresholds on it:
    [A+] from 9.0, [A] from 8.0, [B] from 7.0, [C] from 6.0, [D] from 5.0,
    [F] below.  In particular 9.0 gives [A+] and 8.9 gives [A]. *)
Theorem overall_and_grade (s : ScoreResult) :
  valid_scores s = true ->
  overall s
  = py_round1
      (0x1.999999999999ap-3 * float_of_int (clarity s)
       + 0.25 * float_of_int (impact s)
       + 0x1.999999999999ap-3 * float_of_int (relevance s)
       + 0x1.3333333333333p-3 * float_of_int (completeness s)
       + 0x1.999999999999ap-3 * float_of_int (ats_score s))%float
  /\ (exists t : Z,
        overall s = (float_of_int t / float_of_int 10)%float
        /\ Z.abs (2 * t - exact_twentieths s) <= 1
        /\ grade s = grade_by_tenths t)
  /\ grade_of_score 9%float = py "A+"
  /\ grade_of_score 0x1.1cccccccccccdp+3%float = py "A".
Proof.
  intros Hvalid. split; [|split; [|split; vm_compute; reflexivity]].
  - unfold overall, weighted_sum, weight_clarity, weight_impact,
      weight_relevance, weight_completeness, weight_ats_score.
    unfold valid_scores in Hvalid. rewrite !andb_true_iff in Hvalid.
    destruct Hvalid as [[[[Hc Hi] Hr] Hk] Ha].
    apply in_range_listed, weight_products_commute in Hc, Hi, Hr, Hk, Ha.
    destruct Hc as (-> & _ & _), Hi as (_ & -> & _), Hr as (-> & _ & _),
      Hk as (_ & _ & ->), Ha as (-> & _ & _).
    reflexivity.
  - pose proof (weighted_sum_listed s Hvalid) as Hin.
    pose proof final_partials_round_well as Hall.
    rewrite forallb_forall in Hall. apply Hall in Hin.
    unfold rounds_well in Hin. cbn [fst snd] in Hin.
    apply andb_true_iff in Hin as [Hin Hgrade].
    apply andb_true_iff in Hin as [Hround Hnear].
    apply FloatAxioms.Leibniz.eqb_spec in Hround.
    apply Z.leb_le in Hnear. apply str_eqb_eq in Hgrade.
    exists (nearest_tenths (overall s)). auto.
Qed.

(** An overall of 8.9: [1.8 + 2.5 + 1.8 + 1.2 + 1.6]. *)
Definition scores_8_9 : ScoreResult :=
  {| clarity := 9; impact := 10; relevance := 9; completeness := 8;
     ats_score := 8 |}.

Lemma overall_and_grade_8_9 :
  overall scores_8_9 = 0x1.1cccccccccccdp+3%float
  /\ grade scores_8_9 = py "A"
  /\ exists t : Z,
       overall scores_8_9 = (float_of_int t / float_of_int 10)%float
       /\ Z.abs (2 * t - exact_twentieths scores_8_9) <= 1
       /\ grade scores_8_9 = grade_by_tenths t.
Proof.
  split; [vm_compute; reflexivity|]. split; [vm_compute; reflexivity|].
  apply (overall_and_grade scores_8_9). reflexivity.
Defined.

Example overall_scenario_B_stored :
  overall {| clarity := 10; impact := 1; relevance := 7; completeness := 5;
             ats_score := 5 |} = 0x1.599999999999ap+2%float (* 5.4 *)
  /\ grade {| clarity := 10; impact := 1; relevance := 7; completeness := 5;
              ats_score := 5 |} = py "D".
Proof. vm_compute. split; reflexivity. Qed.

(** Where the exact sum falls halfway between two tenths, the rounding
    errors of the float sum decide: 1.25 is rounded down to 1.2 and 1.35
    up to 1.4, whatever a rule on the exact value would say. *)
Example overall_at_ties :
  overall {| clarity := 1; impact := 2; relevance := 1; completeness := 1;
             ats_score := 1 |} = 0x1.3333333333333p+0%float (* 1.2 *)
  /\ overall {| clarity := 1; impact := 1; relevance := 1; completeness := 1;
                ats_score := 1 |} = 1%float.
Proof. vm_compute. split; reflexivity. Qed.

(* ================================================================== *)
(** * Further properties of the code *)

(** ** [clean_text]: what it keeps and what it removes *)

Definition visible (c : char) : bool := negb (isspace c).

Lemma filter_visible_spaces (w : str) :
  Forall (fun c => isspace c = true) w -> filter visible w = [].
Proof.
  induction 1 as [|c w Hc Hw IH]; [reflexivity|].
  simpl. unfold visible at 1. now rewrite Hc.
Qed.

Lemma filter_visible_strip (s : str) :
  filter visible (strip s) = filter visible s.
Proof.
  unfold strip.
  destruct (lstrip_by_decomp isspace s) as (w1 & H1 & Hw1).
  destruct (rstrip_by_decomp isspace (lstrip_by isspace s)) as (w2 & H2 & Hw2).
  rewrite H1 at 2. rewrite H2 at 2.
  rewrite !filter_app, (filter_visible_spaces w1), (filter_visible_spaces w2)
    by assumption.
  now rewrite app_nil_r.
Qed.

Lemma filter_visible_join (ls : list str) :
  filter visible (join NL ls) = concat (map (filter visible) ls).
Proof.
  induction ls as [|l ls IH]; [reflexivity|].
  destruct ls as [|l' ls].
  - simpl. now rewrite app_nil_r.
  - rewrite join_cons by discriminate.
    rewrite filter_app. cbn [filter map concat].
    change (visible NL) with false. cbv iota. now rewrite IH.
Qed.

Lemma filter_visible_re_sub_run (c : char) (n : nat) (repl : str) (p : nat)
  (s : str) :
  isspace c = true -> Forall (fun x => isspace x = true) repl ->
  filter visible (re_sub_run c n repl p s) = filter visible s.
Proof.
  intros Hc Hrepl.
  assert (Hemit : forall q, filter visible (emit_run c n repl q) = []).
  { intros q. apply filter_visible_spaces. unfold emit_run.
    destruct (n <=? q)%nat; [assumption|].
    apply Forall_forall. intros x Hx. apply repeat_spec in Hx. now subst. }
  revert p. induction s as [|x s IH]; intros p; simpl.
  - apply Hemit.
  - destruct (Z.eqb_spec x c) as [->|Hx].
    + unfold visible at 2. rewrite Hc. simpl. apply IH.
    + rewrite filter_app, Hemit. simpl. now rewrite IH.
Qed.

Lemma filter_visible_clean_text (x : str) :
  filter visible (clean_text x) = filter visible x.
Proof.
  unfold clean_text. destruct x as [|c x]; [reflexivity|]. cbn [is_empty].
  rewrite filter_visible_strip, filter_visible_join, map_map.
  erewrite map_ext by (intros; apply filter_visible_strip).
  rewrite <- filter_visible_join, join_split.
  rewrite !filter_visible_re_sub_run; try reflexivity; repeat constructor.
Qed.

(** X1. [clean_text] only removes whitespace: the characters that are not
    whitespace come out unchanged, all of them, in the same order; so a
    character of the input that is not whitespace occurs in the output,
    and every character of the output that is not whitespace comes from the
    input. *)
Theorem clean_text_keeps_visible (x : str) :
  filter visible (clean_text x) = filter visible x
  /\ (forall c, isspace c = false -> In c x <-> In c (clean_text x)).
Proof.
  pose proof (filter_visible_clean_text x) as E. split; [exact E|].
  intros c Hc.
  assert (Hv : visible c = true) by (unfold visible; now rewrite Hc).
  split; intros Hin.
  - assert (H : In c (filter visible x)) by (apply filter_In; auto).
    rewrite <- E in H. now apply filter_In in H.
  - assert (H : In c (filter visible (clean_text x)))
      by (apply filter_In; auto).
    rewrite E in H. now apply filter_In in H.
Qed.

Lemma stripped_visible_head (y : str) :
  stripped y -> filter visible y = [] -> y = [].
Proof.
  intros [Hs _]. destruct y as [|c y]; [reflexivity|].
  simpl in Hs. simpl. unfold visible at 1. rewrite Hs. discriminate.
Qed.

Lemma filter_visible_nil (x : str) :
  filter visible x = [] <-> Forall (fun c => isspace c = true) x.
Proof.
  split; [|apply filter_visible_spaces].
  induction x as [|c x IH]; [constructor|].
  simpl. unfold visible at 1. destruct (isspace c) eqn:Hc; simpl.
  - intros H. constructor; auto.
  - discriminate.
Qed.

(** X2. One pass of [clean_text] gives a text with no two spaces in a row,
    with no whitespace at either end of the text or of any of its lines,
    and no longer than the input. *)
Theorem clean_text_normal_form (x : str) :
  has_run SP 2 (clean_text x) = false
  /\ stripped (clean_text x)
  /\ Forall stripped (split NL (clean_text x))
  /\ (length (clean_text x) <= length x)%nat.
Proof.
  destruct (clean_text_cleaned x) as [(ls & Hy & Hs & Hn) Hsp He].
  split; [assumption|]. split; [|split].
  - rewrite <- He. apply strip_stripped.
  - rewrite Hy. destruct ls as [|l ls].
    + simpl. repeat constructor.
    + rewrite split_join; [assumption | discriminate | assumption].
  - pose proof (clean_text_length x) as H1.
    pose proof (re_sub_run_length_le NL 3 [NL; NL]) as H2.
    specialize (H2 ltac:(lia) ltac:(simpl; lia) 0%nat x). lia.
Qed.

(** X3. [clean_text] returns the empty text exactly on the texts made of
    whitespace only (the empty text among them). *)
Theorem clean_text_empty_iff (x : str) :
  clean_text x = [] <-> Forall (fun c => isspace c = true) x.
Proof.
  rewrite <- filter_visible_nil, <- filter_visible_clean_text. split.
  - now intros ->.
  - apply stripped_visible_head.
    destruct (clean_text_cleaned x) as [_ _ He]. rewrite <- He.
    apply strip_stripped.
Qed.

(** ** [clean_text]: a second pass settles the text *)

Lemma re_sub_run_triples (c : char) (p : nat) (s : str) :
  has_run c 3 (re_sub_run c 3 [c; c] p s) = false.
Proof.
  assert (Hemit : forall q, has_run c 3 (emit_run c 3 [c; c] q) = false).
  { intros [|[|[|q]]]; cbv [emit_run Nat.leb repeat has_run run_length];
      rewrite ?Z.eqb_refl; reflexivity. }
  revert p. induction s as [|x s IH]; intros p; simpl.
  - apply Hemit.
  - destruct (Z.eqb_spec x c) as [->|Hx]; [apply IH|].
    rewrite has_run_app_stop by (lia || assumption).
    now rewrite Hemit, (IH 0%nat).
Qed.

Lemma re_sub_run_app_stop (c : char) (n : nat) (repl : str) (p : nat)
  (s : str) (x : char) (t : str) :
  x <> c ->
  re_sub_run c n repl p (s ++ x :: t)
  = re_sub_run c n repl p s ++ x :: re_sub_run c n repl 0 t.
Proof.
  intros Hx. revert p. induction s as [|y s IH]; intros p; simpl.
  - destruct (Z.eqb_spec x c); [congruence | reflexivity].
  - destruct (y =? c); [apply IH|].
    rewrite IH, <- app_assoc. reflexivity.
Qed.

Lemma split_cons_hd_tl (s : str) :
  split NL s = hd [] (split NL s) :: tl (split NL s).
Proof.
  pose proof (split_not_nil NL s). destruct (split NL s); [congruence|].
  reflexivity.
Qed.

Lemma split_other_cons (x : char) (s : str) :
  x <> NL ->
  split NL (x :: s) = (x :: hd [] (split NL s)) :: tl (split NL s).
Proof.
  intros Hx. simpl. destruct (Z.eqb_spec x NL); [congruence|].
  pose proof (split_not_nil NL s). destruct (split NL s); [congruence|].
  reflexivity.
Qed.

Lemma split_newlines_app (k : nat) (t : str) :
  split NL (repeat NL k ++ t) = repeat [] k ++ split NL t.
Proof. induction k as [|k IH]; simpl; [reflexivity | now rewrite IH]. Qed.

Lemma emit_newlines (p : nat) :
  exists j, emit_run NL 3 [NL; NL] p = repeat NL j /\ (p = 0 <-> j = 0)%nat.
Proof.
  unfold emit_run. destruct (Nat.leb_spec 3 p).
  - exists 2%nat. split; [reflexivity | lia].
  - exists p. split; [reflexivity | tauto].
Qed.

(** Collapsing newline runs only deletes empty lines: a property of the
    lines that holds of the empty line is kept. *)
Lemma re_sub_run_lines (P : str -> Prop) (s : str) (p : nat) :
  P [] ->
  Forall P (tl (split NL s)) ->
  (p <> 0%nat -> P (hd [] (split NL s))) ->
  let out := split NL (re_sub_run NL 3 [NL; NL] p s) in
  Forall P (tl out)
  /\ (p = 0%nat -> hd [] out = hd [] (split NL s))
  /\ (p <> 0%nat -> hd [] out = []).
Proof.
  intros Hnil. revert p. induction s as [|x s IH]; intros p Htl Hhd out.
  - subst out. cbn [re_sub_run].
    destruct (emit_newlines p) as (j & -> & Hj).
    rewrite <- (app_nil_r (repeat NL j)), split_newlines_app.
    cbn [split]. split; [|split].
    + destruct j; simpl; [constructor|].
      apply Forall_app. split; [|repeat constructor; assumption].
      apply Forall_forall. intros l Hl. apply repeat_spec in Hl. now subst.
    + intros Hp. apply Hj in Hp. now subst.
    + intros Hp. destruct j; [tauto | reflexivity].
  - subst out. cbn [re_sub_run]. destruct (Z.eqb_spec x NL) as [->|Hx].
    + change (split NL (NL :: s)) with ([] :: split NL s) in *.
      cbn [hd tl] in *. rewrite split_cons_hd_tl in Htl.
      inversion Htl as [|? ? Hh Ht]; subst.
      destruct (IH (S p) Ht (fun _ => Hh)) as (H1 & _ & H3).
      split; [exact H1|]. split; intros _; apply H3; discriminate.
    + rewrite split_other_cons in Htl, Hhd by assumption. cbn [hd tl] in *.
      destruct (IH 0%nat Htl ltac:(congruence)) as (H1 & H2 & _).
      specialize (H2 eq_refl).
      destruct (emit_newlines p) as (j & -> & Hj).
      rewrite split_newlines_app, !split_other_cons by assumption.
      rewrite H2. split; [|split].
      * destruct j as [|j]; cbn [repeat app tl]; [exact H1|].
        apply Forall_app. split.
        -- apply Forall_forall. intros l Hl. apply repeat_spec in Hl.
           now subst.
        -- constructor; [|exact H1]. apply Hhd. intros Hp.
           apply Hj in Hp. discriminate.
      * intros Hp. apply Hj in Hp. subst j. reflexivity.
      * intros Hp. destruct j; [tauto | reflexivity].
Qed.

Lemma collapse_cleaned (y : str) :
  cleaned y -> cleaned (re_sub_run NL 3 [NL; NL] 0 y).
Proof.
  intros [(ls & Hy & Hs & Hn) Hsp He].
  set (w := re_sub_run NL 3 [NL; NL] 0 y).
  set (P := fun l : str => stripped l /\ has_run SP 2 l = false).
  assert (HP0 : P []) by (repeat split).
  assert (Hlines : Forall P (split NL y)).
  { apply Forall_and.
    - rewrite Hy. destruct ls as [|l ls]; [repeat constructor|].
      rewrite split_join; [assumption | discriminate | assumption].
    - apply has_run_join; [lia | discriminate |]. now rewrite join_split. }
  assert (Hout : Forall P (split NL w)).
  { rewrite split_cons_hd_tl in Hlines.
    apply Forall_cons_iff in Hlines as [Hh Ht].
    destruct (re_sub_run_lines P y 0 HP0 Ht ltac:(congruence))
      as (H1 & H2 & _).
    fold w in H1, H2. rewrite (split_cons_hd_tl w).
    constructor; [|exact H1]. now rewrite H2. }
  assert (Hy' : stripped y) by (rewrite <- He; apply strip_stripped).
  split.
  - exists (split NL w). split; [now rewrite join_split|]. split.
    + eapply Forall_impl; [|exact Hout]. now intros l [H _].
    + apply split_fields_no_sep.
  - rewrite <- (join_split NL w). apply has_run_join; [lia | discriminate |].
    eapply Forall_impl; [|exact Hout]. now intros l [_ H].
  - apply stripped_fixed. destruct Hy' as [Hstart Hend]. split.
    + subst w. destruct y as [|c y]; [exact I|]. simpl in Hstart. simpl.
      destruct (Z.eqb_spec c NL) as [->|Hc]; [discriminate Hstart|].
      exact Hstart.
    + destruct (rev y) as [|c r] eqn:Hr.
      * apply (f_equal (@rev char)) in Hr. rewrite rev_involutive in Hr.
        subst w. rewrite Hr. exact I.
      * apply (f_equal (@rev char)) in Hr. rewrite rev_involutive in Hr.
        simpl in Hr, Hend. subst w. rewrite Hr.
        assert (Hc : c <> NL) by (intros ->; discriminate Hend).
        rewrite re_sub_run_app_stop by assumption.
        rewrite rev_app_distr. simpl. exact Hend.
Qed.

(** On a text that is already cleaned, [clean_text] does nothing but
    collapse the runs of newlines. *)
Lemma clean_text_of_cleaned (y : str) :
  cleaned y -> clean_text y = re_sub_run NL 3 [NL; NL] 0 y.
Proof.
  intros Hy. pose proof (collapse_cleaned y Hy) as Hw.
  set (w := re_sub_run NL 3 [NL; NL] 0 y) in *.
  assert (H3 : has_run NL 3 w = false) by apply re_sub_run_triples.
  pose proof (clean_text_fixed w Hw H3) as Hfix.
  destruct y as [|c y]; [reflexivity|].
  unfold clean_text in *. cbn [is_empty]. fold w.
  destruct w as [|d w'] eqn:Ew; [reflexivity|]. cbn [is_empty] in Hfix.
  rewrite (re_sub_run_fixed NL 3 [NL; NL]) in Hfix by (lia || exact H3).
  exact Hfix.
Qed.

(** X4. Two passes of [clean_text] always reach a text that further
    passes leave unchanged; that text has no run of three newlines. *)
Theorem clean_text_two_passes (x : str) :
  clean_text (clean_text (clean_text x)) = clean_text (clean_text x)
  /\ has_run NL 3 (clean_text (clean_text x)) = false.
Proof.
  pose proof (clean_text_cleaned x) as Hy.
  rewrite (clean_text_of_cleaned (clean_text x) Hy).
  pose proof (collapse_cleaned _ Hy) as Hw.
  pose proof (re_sub_run_triples NL 0 (clean_text x)) as H3.
  split; [|exact H3]. now apply clean_text_fixed.
Qed.

(** ** [truncate_text] *)

Definition truncation_marker : str :=
  [NL; NL] ++ py "[Content truncated for length...]".

Lemma rfind_from_spec (c : char) (s : str) (i found : Z) :
  rfind_from c s i found = found
  \/ (i <= rfind_from c s i found < i + len s
      /\ nth (Z.to_nat (rfind_from c s i found - i)) s 0 = c).
Proof.
  revert i found. induction s as [|x s IH]; intros i found; [now left|].
  cbn [rfind_from]. unfold len. cbn [length]. rewrite Nat2Z.inj_succ.
  destruct (IH (i + 1) (if x =? c then i else found)) as [E|[Hr Hn]].
  - rewrite E. destruct (Z.eqb_spec x c) as [->|Hx]; [|now left].
    right. split; [unfold len in *; lia|].
    now replace (i - i) with 0 by lia.
  - right. split; [unfold len in *; lia|].
    set (r := rfind_from c s (i + 1) (if x =? c then i else found)) in *.
    replace (Z.to_nat (r - i)) with (S (Z.to_nat (r - (i + 1)))) by lia.
    exact Hn.
Qed.

Lemma rfind_spec (c : char) (s : str) :
  rfind c s = -1
  \/ (0 <= rfind c s < len s /\ nth (Z.to_nat (rfind c s)) s 0 = c).
Proof.
  unfold rfind. destruct (rfind_from_spec c s 0 (-1)) as [E|[Hr Hn]].
  - now left.
  - right. split; [lia|]. now rewrite Z.sub_0_r in Hn.
Qed.

Lemma firstn_snoc_nth {A} (d : A) (l : list A) (i : nat) :
  (i < length l)%nat -> firstn (S i) l = firstn i l ++ [nth i l d].
Proof.
  revert i. induction l as [|a l IH]; intros i Hi; simpl in Hi; [lia|].
  destruct i as [|i]; [reflexivity|].
  cbn [firstn nth app]. f_equal. apply IH. lia.
Qed.

Lemma slice_to_prefix (n : Z) (text : str) :
  exists rest, text = slice_to n text ++ rest.
Proof.
  unfold slice_to. destruct (0 <=? n);
    eexists; symmetry; apply firstn_skipn.
Qed.

(** X5. [truncate_text] returns a text of at most [max_chars] characters
    as it is.  A longer text is cut to a prefix followed by the marker
    ["\n\n[Content truncated for length...]"] of 35 characters; for
    [max_chars >= 0] the prefix has at most [max_chars] characters, and it
    is empty, or has exactly [max_chars] characters, or ends with a full
    stop or a newline. *)
Theorem truncate_text_shape (text : str) (max_chars : Z) :
  (len text <= max_chars -> truncate_text text max_chars = text)
  /\ (max_chars < len text ->
      exists kept rest,
        truncate_text text max_chars = kept ++ truncation_marker
        /\ text = kept ++ rest
        /\ len (truncate_text text max_chars) = len kept + 35
        /\ (0 <= max_chars ->
            len kept <= max_chars
            /\ (kept = [] \/ len kept = max_chars
                \/ exists body c, kept = body ++ [c] /\ (c = 46 \/ c = NL)))).
Proof.
  unfold truncate_text. split.
  - intros H. now apply Z.leb_le in H as ->.
  - intros H. apply Z.leb_gt in H as Hlt. rewrite Hlt. clear Hlt.
    set (truncated := slice_to max_chars text).
    set (cut_point := Z.max (rfind 46 truncated) (rfind NL truncated)).
    assert (Hlen : 0 <= max_chars -> length truncated = Z.to_nat max_chars).
    { intros Hmax. unfold truncated, slice_to.
      apply Z.leb_le in Hmax as Hmax'. rewrite Hmax'.
      apply firstn_length_le. unfold len in H. lia. }
    destruct (slice_to_prefix max_chars text) as (rest0 & Hrest0).
    fold truncated in Hrest0.
    match goal with
    | |- context [if ?c then _ else _] => destruct c eqn:Hcut
    end.
    + destruct (slice_to_prefix (cut_point + 1) truncated) as (rest1 & Hrest1).
      exists (slice_to (cut_point + 1) truncated), (rest1 ++ rest0).
      split; [reflexivity|]. split.
      { rewrite app_assoc, <- Hrest1. exact Hrest0. }
      split.
      { unfold len. rewrite length_app. simpl length. lia. }
      intros Hmax. specialize (Hlen Hmax).
      assert (Hcp : cut_point = -1
                    \/ (0 <= cut_point < len truncated
                        /\ (nth (Z.to_nat cut_point) truncated 0 = 46
                            \/ nth (Z.to_nat cut_point) truncated 0 = NL))).
      { unfold cut_point.
        destruct (rfind_spec 46 truncated) as [E1|[B1 N1]];
          destruct (rfind_spec NL truncated) as [E2|[B2 N2]].
        - left. lia.
        - right. rewrite Z.max_r by lia. auto.
        - right. rewrite Z.max_l by lia. auto.
        - right. destruct (Z.max_spec (rfind 46 truncated) (rfind NL truncated))
            as [[_ ->]|[_ ->]]; auto. }
      destruct Hcp as [->|[Hb Hn]].
      * change (slice_to (-1 + 1) truncated) with (@nil char).
        split; [unfold len; simpl; lia | now left].
      * unfold slice_to. replace (0 <=? cut_point + 1) with true
          by (symmetry; apply Z.leb_le; lia).
        replace (Z.to_nat (cut_point + 1)) with (S (Z.to_nat cut_point))
          by lia.
        unfold len in *. clearbody cut_point. clearbody truncated.
        assert (Hi : (Z.to_nat cut_point < length truncated)%nat) by lia.
        rewrite (@firstn_snoc_nth char 0 truncated (Z.to_nat cut_point) Hi).
        split.
        -- rewrite length_app, firstn_length_le by lia. simpl. lia.
        -- right. right. eauto.
    + exists truncated, rest0. split; [reflexivity|]. split; [exact Hrest0|].
      split.
      { unfold len. rewrite length_app. simpl length. lia. }
      intros Hmax. specialize (Hlen Hmax). unfold len. split; [lia|].
      right. left. lia.
Qed.

Lemma truncate_text_shape_example :
  let text := py "First sentence. Second one" in
  exists kept rest,
    truncate_text text 20 = kept ++ truncation_marker
    /\ text = kept ++ rest
    /\ len (truncate_text text 20) = len kept + 35
    /\ (0 <= 20 ->
        len kept <= 20
        /\ (kept = [] \/ len kept = 20
            \/ exists body c, kept = body ++ [c] /\ (c = 46 \/ c = NL))).
Proof.
  intros text.
  destruct (truncate_text_shape text 20) as [_ H]. apply H.
  vm_compute. reflexivity.
Defined.

Example truncate_text_cases :
  truncate_text (py "short") 15000 = py "short"
  /\ truncate_text (py "First sentence. Second one") 20
     = py "First sentence. Seco" ++ truncation_marker
  /\ truncate_text (py "A long first sentence. Then") 25
     = py "A long first sentence." ++ truncation_marker.
Proof. vm_compute. repeat split. Qed.

(** ** [extract_bullet_points]: the shape of the bullets *)

Lemma take_while_length (p : char -> bool) (s : str) :
  (length (take_while p s) <= length s)%nat.
Proof.
  induction s as [|c s IH]; simpl; [lia|]. destruct (p c); simpl; lia.
Qed.

Lemma take_while_all (p : char -> bool) (s : str) :
  Forall (fun c => p c = true) (take_while p s).
Proof.
  induction s as [|c s IH]; simpl; [constructor|].
  destruct (p c) eqn:Hc; [now constructor | constructor].
Qed.

Lemma group_to_eol_spec (s g : str) :
  group_to_eol s = Some g ->
  ~ In NL g /\ (length g <= length s)%nat.
Proof.
  unfold group_to_eol.
  destruct (is_empty (take_while (fun c => negb (c =? NL)) s));
    [discriminate|].
  intros [= <-]. split; [|apply take_while_length].
  intros Hin.
  pose proof (take_while_all (fun c => negb (c =? NL)) s) as Hall.
  rewrite Forall_forall in Hall. specialize (Hall NL Hin). discriminate.
Qed.

Lemma ws_then_group_spec (s g : str) :
  ws_then_group s = Some g ->
  ~ In NL g /\ (length g <= length s)%nat.
Proof.
  revert g. induction s as [|c s IH]; intros g; [discriminate|].
  cbn [ws_then_group]. destruct (isspace c).
  - destruct (ws_then_group s) as [g'|].
    + intros [= <-]. destruct (IH g' eq_refl). simpl. split; [assumption|lia].
    + apply group_to_eol_spec.
  - apply group_to_eol_spec.
Qed.

Section BulletShape.

Variable L : pylib.

Lemma after_digit_spec (s g : str) :
  after_digit L s = Some g ->
  ~ In NL g /\ (length g <= length s)%nat.
Proof.
  revert g. induction s as [|c s IH]; intros g; [discriminate|].
  cbn [after_digit].
  destruct (if uni_decimal L c then after_digit L s else None) as [g'|] eqn:E.
  - intros [= <-]. destruct (uni_decimal L c); [|discriminate].
    destruct (IH g' E). simpl. split; [assumption|lia].
  - destruct (c =? 46); [|discriminate]. intros H.
    apply ws_then_group_spec in H as [H1 H2]. simpl. split; [assumption|lia].
Qed.

(** What a pattern captures is part of the line after its first
    character and holds no newline. *)
Lemma patterns_spec (pattern : str -> option str) (line g : str) :
  In pattern (patterns L) -> pattern line = Some g ->
  ~ In NL g /\ (length g < length line)%nat.
Proof.
  unfold patterns. simpl. intros [<-|[<-|[<-|[]]]].
  - unfold match_glyph. destruct line as [|c rest]; [discriminate|].
    destruct (mem_char c bullet_glyphs); [|discriminate]. intros H.
    apply ws_then_group_spec in H as [H1 H2]. simpl. split; [assumption|lia].
  - unfold match_numbered. destruct line as [|c rest]; [discriminate|].
    destruct (uni_decimal L c); [|discriminate]. intros H.
    apply after_digit_spec in H as [H1 H2]. simpl. split; [assumption|lia].
  - unfold match_lettered. destruct line as [|c [|p rest]]; try discriminate.
    destruct (char_in 97 122 c && (p =? 41)); [|discriminate]. intros H.
    apply ws_then_group_spec in H as [H1 H2]. simpl. split; [assumption|lia].
Qed.

(** A bullet as the first loop appends it. *)
Definition well_formed_bullet (b : str) : Prop :=
  stripped b /\ ~ In NL b /\ 20 < len b.

Lemma try_patterns_shape (ps : list (str -> option str)) (line : str)
  (bullets : list str) :
  (forall pattern, In pattern ps -> In pattern (patterns L)) ->
  try_patterns ps line bullets = bullets
  \/ exists b, try_patterns ps line bullets = bullets ++ [b]
               /\ well_formed_bullet b /\ (length b < length line)%nat.
Proof.
  induction ps as [|pattern ps IH]; intros Hps; simpl; [now left|].
  destruct (pattern line) as [g|] eqn:Hg.
  - destruct (Z.ltb_spec 20 (len (strip g))); [|now left].
    right. exists (strip g). split; [reflexivity|].
    destruct (patterns_spec pattern line g (Hps _ (or_introl eq_refl)) Hg)
      as [Hnl Hlen].
    pose proof (strip_length g).
    repeat split; try apply strip_stripped; try assumption; try lia.
    now apply strip_no_sep.
  - apply IH. intros; apply Hps; now right.
Qed.

Lemma scan_patterns_shape (P : str -> Prop) (max_bullets : Z)
  (lines bullets : list str) :
  (forall line b, In line lines -> well_formed_bullet b ->
                  (length b < length (strip line))%nat -> P b) ->
  Forall P bullets ->
  Forall P (scan_patterns L max_bullets lines bullets).
Proof.
  revert bullets. induction lines as [|line lines IH]; intros bullets HP Hall.
  - assumption.
  - cbn [scan_patterns].
    assert (HP' : forall line0 b, In line0 lines -> well_formed_bullet b ->
                    (length b < length (strip line0))%nat -> P b)
      by (intros; eapply HP; simpl; eauto).
    destruct (is_empty (strip line)); [now apply IH|].
    destruct (try_patterns_shape (patterns L) (strip line) bullets
                ltac:(auto)) as [-> | (b & -> & Hb & Hlen)].
    + destruct (max_bullets <=? len bullets); [assumption | now apply IH].
    + assert (Hall' : Forall P (bullets ++ [b])).
      { apply Forall_app. split; [assumption|]. constructor; [|constructor].
        eapply HP; simpl; eauto. }
      destruct (max_bullets <=? len (bullets ++ [b]));
        [assumption | now apply IH].
Qed.

Lemma scan_verbs_shape (P : str -> Prop) (max_bullets : Z)
  (lines bullets : list str) :
  (forall line, In line lines -> 25 < len (strip line) -> P (strip line)) ->
  Forall P bullets ->
  Forall P (scan_verbs L max_bullets lines bullets).
Proof.
  revert bullets. induction lines as [|line lines IH]; intros bullets HP Hall.
  - assumption.
  - cbn [scan_verbs].
    assert (HP' : forall line0, In line0 lines -> 25 < len (strip line0) ->
                    P (strip line0)) by (intros; apply HP; simpl; auto).
    match goal with
    | |- context [if ?c && (25 <? len (strip line)) then _ else _] =>
        destruct c; cbn [andb]
    end.
    + destruct (Z.ltb_spec 25 (len (strip line))) as [Hlong|Hshort].
      * assert (Hall' : Forall P (bullets ++ [strip line])).
        { apply Forall_app. split; [assumption|].
          constructor; [|constructor]. apply HP; simpl; auto. }
        destruct (max_bullets <=? len (bullets ++ [strip line]));
          [assumption | now apply IH].
      * destruct (max_bullets <=? len bullets); [assumption | now apply IH].
    + destruct (max_bullets <=? len bullets); [assumption | now apply IH].
Qed.

Lemma extract_bullets_items (text : str) (max_bullets : Z) :
  Forall well_formed_bullet (extract_bullet_points L text max_bullets).
Proof.
  unfold extract_bullet_points.
  assert (H1 : Forall well_formed_bullet
                 (scan_patterns L max_bullets (split NL text) [])).
  { apply scan_patterns_shape; [auto | constructor]. }
  destruct (scan_patterns L max_bullets (split NL text) []) as [|b bs];
    [|exact H1].
  cbn [is_empty]. apply scan_verbs_shape; [|constructor].
  intros line Hin Hlong. repeat split; try apply strip_stripped; [|lia].
  apply strip_no_sep.
  pose proof (split_fields_no_sep NL text) as Hsep.
  rewrite Forall_forall in Hsep. now apply Hsep.
Qed.

(** X6. Every bullet that [extract_bullet_points] returns is a piece of
    one line of the text: it holds no newline, has no whitespace at either
    end, is longer than 20 characters and no longer than that line once
    stripped. *)
Theorem extract_bullet_points_well_formed (text : str) (max_bullets : Z) :
  Forall (fun b => well_formed_bullet b
                   /\ exists line, In line (split NL text)
                                   /\ (length b <= length (strip line))%nat)
    (extract_bullet_points L text max_bullets).
Proof.
  unfold extract_bullet_points.
  set (P := fun b => well_formed_bullet b
                     /\ exists line, In line (split NL text)
                                     /\ (length b <= length (strip line))%nat).
  assert (H1 : Forall P (scan_patterns L max_bullets (split NL text) [])).
  { apply scan_patterns_shape; [|constructor].
    intros line b Hin Hb Hlen. split; [assumption|].
    exists line. split; [assumption | lia]. }
  destruct (scan_patterns L max_bullets (split NL text) []) as [|b bs];
    [|exact H1].
  cbn [is_empty]. apply scan_verbs_shape; [|constructor].
  intros line Hin Hlong. split.
  - repeat split; try apply strip_stripped; [|lia].
    apply strip_no_sep.
    pose proof (split_fields_no_sep NL text) as Hsep.
    rewrite Forall_forall in Hsep. now apply Hsep.
  - exists line. split; [assumption | lia].
Qed.

(** X7. A text in which no line, once stripped, has more than 21
    characters yields no bullet, whatever the bound; so does the empty
    text. *)
Theorem extract_bullet_points_short_lines (text : str) (max_bullets : Z) :
  Forall (fun line => len (strip line) <= 21) (split NL text) ->
  extract_bullet_points L text max_bullets = [].
Proof.
  intros Hshort. rewrite Forall_forall in Hshort.
  unfold extract_bullet_points.
  assert (H1 : Forall (fun _ => False)
                 (scan_patterns L max_bullets (split NL text) [])).
  { apply scan_patterns_shape; [|constructor].
    intros line b Hin (_ & _ & Hb) Hlen. specialize (Hshort line Hin).
    unfold len in *. lia. }
  destruct (scan_patterns L max_bullets (split NL text) []) as [|b bs];
    [|now inversion H1].
  cbn [is_empty].
  assert (H2 : Forall (fun _ => False)
                 (scan_verbs L max_bullets (split NL text) [])).
  { apply scan_verbs_shape; [|constructor].
    intros line Hin Hlong. specialize (Hshort line Hin). lia. }
  destruct (scan_verbs L max_bullets (split NL text) []) as [|b bs];
    [reflexivity | now inversion H2].
Qed.

End BulletShape.

Lemma extract_bullet_points_short_lines_example :
  extract_bullet_points ascii_lib
    (py "- helped with stuff" ++ [NL] ++ py "Led the team") 10 = [].
Proof.
  apply extract_bullet_points_short_lines.
  vm_compute. repeat constructor; discriminate.
Defined.

(** ** [extract_bullet_points]: raising the bound *)

Lemma firstn_len_app {A} (l r : list A) (n : Z) :
  len l = n -> firstn (Z.to_nat n) (l ++ r) = l.
Proof.
  unfold len. intros <-. rewrite Nat2Z.id, firstn_app, Nat.sub_diag.
  rewrite firstn_all. simpl. apply app_nil_r.
Qed.

Section BulletBound.

Variable L : pylib.

Lemma scan_patterns_extends (max_bullets : Z) (lines bullets : list str) :
  exists more, scan_patterns L max_bullets lines bullets = bullets ++ more.
Proof.
  revert bullets. induction lines as [|line lines IH]; intros bullets.
  - exists []. simpl. now rewrite app_nil_r.
  - cbn [scan_patterns]. destruct (is_empty (strip line)); [apply IH|].
    destruct (try_patterns_step (patterns L) (strip line) bullets)
      as [-> | (b & -> & _)].
    + destruct (max_bullets <=? len bullets); [|apply IH].
      exists []. now rewrite app_nil_r.
    + destruct (max_bullets <=? len (bullets ++ [b])).
      * now exists [b].
      * destruct (IH (bullets ++ [b])) as (more & ->).
        exists (b :: more). now rewrite <- app_assoc.
Qed.

Lemma scan_verbs_extends (max_bullets : Z) (lines bullets : list str) :
  exists more, scan_verbs L max_bullets lines bullets = bullets ++ more.
Proof.
  revert bullets. induction lines as [|line lines IH]; intros bullets.
  - exists []. simpl. now rewrite app_nil_r.
  - cbn [scan_verbs].
    match goal with
    | |- context [if ?c then bullets ++ [strip line] else bullets] =>
        destruct c
    end.
    + destruct (max_bullets <=? len (bullets ++ [strip line])).
      * now exists [strip line].
      * destruct (IH (bullets ++ [strip line])) as (more & ->).
        exists (strip line :: more). now rewrite <- app_assoc.
    + destruct (max_bullets <=? len bullets); [|apply IH].
      exists []. now rewrite app_nil_r.
Qed.

Lemma scan_patterns_firstn (m m' : Z) (lines bullets : list str) :
  m <= m' -> len bullets < m ->
  scan_patterns L m lines bullets
  = firstn (Z.to_nat m) (scan_patterns L m' lines bullets).
Proof.
  intros Hm. revert bullets.
  induction lines as [|line lines IH]; intros bullets Hlen.
  - simpl. symmetry. apply firstn_all2. unfold len in Hlen. lia.
  - cbn [scan_patterns]. destruct (is_empty (strip line)); [now apply IH|].
    destruct (try_patterns_step (patterns L) (strip line) bullets)
      as [-> | (b & -> & _)].
    + destruct (Z.leb_spec m (len bullets)); [lia|].
      destruct (Z.leb_spec m' (len bullets)); [lia|]. now apply IH.
    + pose proof (len_app_one bullets b) as Hb.
      destruct (Z.leb_spec m (len (bullets ++ [b]))) as [Hfull|Hroom].
      * assert (Hexact : len (bullets ++ [b]) = m) by lia.
        destruct (Z.leb_spec m' (len (bullets ++ [b]))).
        -- rewrite <- (app_nil_r (bullets ++ [b])) at 2.
           symmetry. now apply firstn_len_app.
        -- destruct (scan_patterns_extends m' lines (bullets ++ [b]))
             as (more & ->).
           symmetry. now apply firstn_len_app.
      * destruct (Z.leb_spec m' (len (bullets ++ [b]))); [lia|].
        apply IH. lia.
Qed.

Lemma scan_verbs_firstn (m m' : Z) (lines bullets : list str) :
  m <= m' -> len bullets < m ->
  scan_verbs L m lines bullets
  = firstn (Z.to_nat m) (scan_verbs L m' lines bullets).
Proof.
  intros Hm. revert bullets.
  induction lines as [|line lines IH]; intros bullets Hlen.
  - simpl. symmetry. apply firstn_all2. unfold len in Hlen. lia.
  - cbn [scan_verbs].
    match goal with
    | |- context [if ?c then bullets ++ [strip line] else bullets] =>
        destruct c
    end.
    + pose proof (len_app_one bullets (strip line)) as Hb.
      destruct (Z.leb_spec m (len (bullets ++ [strip line])))
        as [Hfull|Hroom].
      * assert (Hexact : len (bullets ++ [strip line]) = m) by lia.
        destruct (Z.leb_spec m' (len (bullets ++ [strip line]))).
        -- rewrite <- (app_nil_r (bullets ++ [strip line])) at 2.
           symmetry. now apply firstn_len_app.
        -- destruct (scan_verbs_extends m' lines (bullets ++ [strip line]))
             as (more & ->).
           symmetry. now apply firstn_len_app.
      * destruct (Z.leb_spec m' (len (bullets ++ [strip line]))); [lia|].
        apply IH. lia.
    + destruct (Z.leb_spec m (len bullets)); [lia|].
      destruct (Z.leb_spec m' (len bullets)); [lia|]. now apply IH.
Qed.

(** X8. For bounds [1 <= m <= m'], the bullets returned under the bound
    [m] are the first [m] of those returned under [m']: a larger bound only
    appends bullets, and the choice between the two loops does not depend
    on the bound. *)
Theorem extract_bullet_points_prefix (text : str) (m m' : Z) :
  1 <= m -> m <= m' ->
  extract_bullet_points L text m
  = firstn (Z.to_nat m) (extract_bullet_points L text m').
Proof.
  intros H1 Hm. unfold extract_bullet_points.
  rewrite (scan_patterns_firstn m m') by (change (len (@nil str)) with 0; lia).
  destruct (scan_patterns L m' (split NL text) []) as [|b bs] eqn:E.
  - rewrite firstn_nil. cbn [is_empty].
    apply scan_verbs_firstn; [assumption|]. change (len (@nil str)) with 0. lia.
  - destruct (Z.to_nat m) as [|k] eqn:Ek; [lia|]. reflexivity.
Qed.

End BulletBound.

Lemma extract_bullet_points_prefix_example :
  let text :=
    py "- Led a team of 5 engineers to deliver project X" ++ [NL]
    ++ py "* Reduced the deployment time from hours to minutes" in
  extract_bullet_points ascii_lib text 1
  = firstn (Z.to_nat 1) (extract_bullet_points ascii_lib text 6).
Proof.
  intros text. apply extract_bullet_points_prefix; lia.
Defined.

(** ** [extract_bullet_points]: the comparison after [rstrip('ed')] *)

(** X9. In the second loop the first word is also compared after
    [rstrip('ed')], which removes every trailing [e] and [d].  The only
    action verbs that do not end with one of these letters are ["built"]
    and ["oversaw"]: the second comparison succeeds exactly for a word made
    of one of these two followed by letters [e] and [d], and for no other
    word. *)
Theorem rstrip_ed_matches (w : str) :
  mem_str (rstrip_by in_ed w) action_verbs = true <->
  exists tail, Forall (fun c => in_ed c = true) tail
               /\ (w = py "built" ++ tail \/ w = py "oversaw" ++ tail).
Proof.
  split.
  - intros Hmem. unfold mem_str in Hmem.
    apply existsb_exists in Hmem as (v & Hin & Heq).
    apply str_eqb_eq in Heq.
    pose proof (rstrip_by_ends_clean in_ed w) as Hclean.
    destruct (rstrip_by_decomp in_ed w) as (tail & Hw & Htail).
    exists tail. split; [assumption|]. rewrite Hw.
    rewrite Heq in Hclean |- *. clear Hw Heq.
    unfold action_verbs in Hin. simpl in Hin.
    repeat (destruct Hin as [<-|Hin];
            [first [ exfalso; discriminate Hclean
                   | left; reflexivity | right; reflexivity ] |]).
    contradiction.
  - intros (tail & Htail & Hw).
    assert (Hstrip : forall stem,
              starts_clean in_ed (rev stem) ->
              rstrip_by in_ed (stem ++ tail) = stem).
    { intros stem Hstem. unfold rstrip_by. rewrite rev_app_distr.
      assert (Hl : forall r, lstrip_by in_ed (rev tail ++ r)
                             = lstrip_by in_ed r).
      { intros r. apply Forall_rev in Htail.
        induction Htail as [|c t Hc Ht IH]; [reflexivity|].
        simpl. now rewrite Hc. }
      rewrite Hl, lstrip_by_fixed by assumption. apply rev_involutive. }
    destruct Hw as [-> | ->]; rewrite Hstrip; reflexivity.
Qed.

Example rstrip_ed_samples :
  rstrip_by in_ed (py "developed") = py "develop"
  /\ mem_str (py "develop") action_verbs = false
  /\ rstrip_by in_ed (py "led") = py "l"
  /\ mem_str (rstrip_by in_ed (py "builted")) action_verbs = true.
Proof. vm_compute. repeat split. Qed.

(** ** [score]: what holds for every answer *)

Lemma ScoreResult_new_valid (c i r k a : Z) (res : ScoreResult) :
  ScoreResult_new c i r k a = Some res -> valid_scores res = true.
Proof.
  unfold ScoreResult_new.
  destruct (valid_scores {| clarity := c; impact := i; relevance := r;
                            completeness := k; ats_score := a |}) eqn:E;
    [|discriminate].
  now intros [= <-].
Qed.

Lemma read_scores_valid (L : pylib) (self : ResumeScorer)
  (loads : option json) (res : ScoreResult) :
  fst (read_scores L self loads) = Some res -> valid_scores res = true.
Proof.
  unfold read_scores. destruct loads as [[| | | | | |d]|]; try discriminate.
  cbn [fst].
  destruct (clamp_score L (dict_get d (py "clarity") (JInt 5))) as [c|];
    [|discriminate].
  destruct (clamp_score L (dict_get d (py "impact") (JInt 5))) as [i|];
    [|discriminate].
  destruct (clamp_score L (dict_get d (py "relevance") (JInt 5))) as [r|];
    [|discriminate].
  destruct (clamp_score L (dict_get d (py "completeness") (JInt 5))) as [k|];
    [|discriminate].
  destruct (clamp_score L (dict_get d (py "ats_score") (JInt 5))) as [a|];
    [|discriminate].
  cbn [bind]. apply ScoreResult_new_valid.
Qed.

(** X10. Whatever the client answers, [score] returns a [ScoreResult]
    whose five criteria are integers in [[1, 10]], and it has sent exactly
    one request: there is no retry. *)
Theorem score_always_valid (L : pylib) (self : ResumeScorer)
  (resume : ResumeData) (client : request -> response) (log : list request) :
  valid_scores (fst (fst (score L self resume client log))) = true
  /\ snd (score L self resume client log) = log ++ [scoring_request resume].
Proof.
  unfold score, gbind, create, ret. cbn [fst snd]. split; [|reflexivity].
  destruct (client (scoring_request resume)) as [|loads]; [reflexivity|].
  pose proof (read_scores_valid L self loads) as Hvalid.
  destruct (read_scores L self loads) as [[res|] self']; cbn [fst] in *.
  - now apply Hvalid.
  - reflexivity.
Qed.

(** X11. The explanations kept by the scorer are written before the
    scores are read.  When the answer is a JSON object they are replaced
    by its ["score_explanations"] entry (an empty dict when missing), even
    if a criterion is then rejected and the neutral scores are returned;
    when the client raises or the answer is not an object they stay what
    they were before the call. *)
Theorem score_explanations_after (L : pylib) (self : ResumeScorer)
  (resume : ResumeData) (client : request -> response) (log : list request) :
  (forall d, client (scoring_request resume) = Message (Some (JObj d)) ->
     _score_explanations (snd (fst (score L self resume client log)))
     = dict_get d (py "score_explanations") (JObj []))
  /\ (client (scoring_request resume) = Raises ->
      snd (fst (score L self resume client log)) = self)
  /\ (forall loads,
        client (scoring_request resume) = Message loads ->
        (forall d, loads <> Some (JObj d)) ->
        snd (fst (score L self resume client log)) = self).
Proof.
  unfold score, gbind, create, ret. cbn [fst snd]. repeat split.
  - intros d ->.
    assert (E : snd (read_scores L self (Some (JObj d)))
                = {| _score_explanations :=
                       dict_get d (py "score_explanations") (JObj []) |})
      by reflexivity.
    destruct (read_scores L self (Some (JObj d))) as [[res|] self'];
      cbn [fst snd] in *; now rewrite E.
  - now intros ->.
  - intros loads -> Hloads.
    destruct loads as [[| | | | | |d]|]; try reflexivity.
    now elim (Hloads d).
Qed.

(** An answer whose clarity is not a number: the scores are the neutral
    ones, the explanations are those of the answer. *)
Definition rejected_answer : dict :=
  [(py "clarity", JStr (py "high"));
   (py "score_explanations", JObj [(py "clarity", JStr (py "Clear"))])].

Lemma score_explanations_after_example :
  fst (fst (score ascii_lib a_scorer a_resume
              (answers (JObj rejected_answer)) [])) = neutral_scores
  /\ _score_explanations
       (snd (fst (score ascii_lib a_scorer a_resume
                    (answers (JObj rejected_answer)) [])))
     = JObj [(py "clarity", JStr (py "Clear"))].
Proof.
  split; [vm_compute; reflexivity|].
  destruct (score_explanations_after ascii_lib a_scorer a_resume
              (answers (JObj rejected_answer)) []) as [H _].
  rewrite (H rejected_answer eq_refl). reflexivity.
Defined.

(** ** [overall] and [grade]: bounds and monotonicity *)

Definition tenths_range : list Z := map Z.of_nat (seq 10 91).

Lemma tenths_range_in (t : Z) : 10 <= t <= 100 -> In t tenths_range.
Proof.
  intros H. unfold tenths_range.
  replace t with (Z.of_nat (Z.to_nat t)) by lia.
  apply in_map, in_seq. lia.
Qed.

Definition tenth (t : Z) : float := (float_of_int t / float_of_int 10)%float.

(** With five scores in [[1, 10]], [overall] is the double of [t / 10] for
    an integer [t] between 10 and 100 within one half of ten times the
    exact weighted sum, and [grade] is read off [t]. *)
Lemma overall_tenths (s : ScoreResult) :
  valid_scores s = true ->
  exists t, overall s = tenth t
            /\ Z.abs (2 * t - exact_twentieths s) <= 1
            /\ 10 <= t <= 100
            /\ grade s = grade_by_tenths t.
Proof.
  intros Hvalid.
  pose proof (weighted_sum_listed s Hvalid) as Hin.
  pose proof final_partials_round_well as Hall.
  rewrite forallb_forall in Hall. apply Hall in Hin.
  unfold rounds_well in Hin. cbn [fst snd] in Hin.
  apply andb_true_iff in Hin as [Hin Hgrade].
  apply andb_true_iff in Hin as [Hround Hnear].
  apply FloatAxioms.Leibniz.eqb_spec in Hround.
  apply Z.leb_le in Hnear. apply str_eqb_eq in Hgrade.
  exists (nearest_tenths (overall s)).
  split; [exact Hround|]. split; [exact Hnear|]. split; [|exact Hgrade].
  unfold valid_scores, in_range in Hvalid.
  rewrite !andb_true_iff, !Z.leb_le in Hvalid.
  unfold exact_twentieths in Hnear. unfold overall. lia.
Qed.

Lemma tenths_within_bounds :
  forallb (fun t => (1 <=? tenth t)%float && (tenth t <=? 10)%float)
    tenths_range = true.
Proof. vm_compute. reflexivity. Qed.

Lemma tenths_increasing :
  forallb (fun t => forallb (fun t' => negb (t <? t')
                                       || (tenth t <? tenth t')%float)
                      tenths_range)
    tenths_range = true.
Proof. vm_compute. reflexivity. Qed.

(** X12. For five stored scores in [[1, 10]] the overall score lies
    between 1.0 and 10.0, and when the five scores are all equal to [v] it
    is exactly [v]. *)
Theorem overall_bounds (s : ScoreResult) :
  valid_scores s = true ->
  (1 <=? overall s)%float = true
  /\ (overall s <=? 10)%float = true
  /\ (forall v, clarity s = v -> impact s = v -> relevance s = v ->
                completeness s = v -> ats_score s = v ->
                overall s = float_of_int v).
Proof.
  intros Hvalid. destruct (overall_tenths s Hvalid) as (t & Ho & _ & Ht & _).
  pose proof tenths_within_bounds as Hall. rewrite forallb_forall in Hall.
  specialize (Hall t (tenths_range_in t Ht)).
  apply andb_true_iff in Hall as [Hlo Hhi]. rewrite <- Ho in Hlo, Hhi.
  split; [exact Hlo|]. split; [exact Hhi|].
  intros v Hc Hi Hr Hk Ha. clear Ho Hlo Hhi.
  unfold valid_scores in Hvalid. rewrite !andb_true_iff in Hvalid.
  destruct Hvalid as [[[[Hv _] _] _] _]. rewrite Hc in Hv.
  apply in_range_listed in Hv. destruct s as [c i r k a].
  cbn [clarity impact relevance completeness ats_score] in *. subst.
  unfold score_range in Hv. simpl in Hv.
  destruct Hv as [<-|[<-|[<-|[<-|[<-|[<-|[<-|[<-|[<-|[<-|[]]]]]]]]]]];
    vm_compute; reflexivity.
Qed.

Lemma overall_bounds_example :
  (1 <=? overall scores_8_9)%float = true
  /\ (overall scores_8_9 <=? 10)%float = true
  /\ (forall v, clarity scores_8_9 = v -> impact scores_8_9 = v ->
                relevance scores_8_9 = v -> completeness scores_8_9 = v ->
                ats_score scores_8_9 = v ->
                overall scores_8_9 = float_of_int v).
Proof. apply overall_bounds. reflexivity. Defined.

(** The pointwise order on stored scores. *)
Definition scores_le (s s' : ScoreResult) : Prop :=
  clarity s <= clarity s' /\ impact s <= impact s'
  /\ relevance s <= relevance s' /\ completeness s <= completeness s'
  /\ ats_score s <= ats_score s'.

(** The letter grades from worst to best. *)
Definition grade_level (g : str) : Z :=
  if str_eqb g (py "A+") then 5
  else if str_eqb g (py "A") then 4
  else if str_eqb g (py "B") then 3
  else if str_eqb g (py "C") then 2
  else if str_eqb g (py "D") then 1
  else 0.

Lemma grade_level_by_tenths (t : Z) :
  grade_level (grade_by_tenths t)
  = if 90 <=? t then 5 else if 80 <=? t then 4 else if 70 <=? t then 3
    else if 60 <=? t then 2 else if 50 <=? t then 1 else 0.
Proof.
  unfold grade_by_tenths.
  destruct (90 <=? t); [reflexivity|]. destruct (80 <=? t); [reflexivity|].
  destruct (70 <=? t); [reflexivity|]. destruct (60 <=? t); [reflexivity|].
  destruct (50 <=? t); reflexivity.
Qed.

(** X13. Raising stored scores raises the result: if no criterion of [s']
    is below that of [s] and one is above, the overall of [s'] is strictly
    greater than that of [s], and its grade is at least as good. *)
Theorem overall_monotone (s s' : ScoreResult) :
  valid_scores s = true -> valid_scores s' = true ->
  scores_le s s' -> s <> s' ->
  (overall s <? overall s')%float = true
  /\ grade_level (grade s) <= grade_level (grade s').
Proof.
  intros Hv Hv' Hle Hne.
  destruct (overall_tenths s Hv) as (t & -> & Hn & Ht & ->).
  destruct (overall_tenths s' Hv') as (t' & -> & Hn' & Ht' & ->).
  assert (Hlt : t < t').
  { unfold exact_twentieths, scores_le in *.
    destruct s as [c i r k a], s' as [c' i' r' k' a'].
    cbn [clarity impact relevance completeness ats_score] in *.
    assert (Hsome : ~ (c = c' /\ i = i' /\ r = r' /\ k = k' /\ a = a')).
    { intros (-> & -> & -> & -> & ->). now apply Hne. }
    lia. }
  split.
  - pose proof tenths_increasing as Hall. rewrite forallb_forall in Hall.
    specialize (Hall t (tenths_range_in t Ht)).
    rewrite forallb_forall in Hall.
    specialize (Hall t' (tenths_range_in t' Ht')).
    apply Z.ltb_lt in Hlt. rewrite Hlt in Hall. exact Hall.
  - rewrite !grade_level_by_tenths.
    repeat match goal with
           | |- context [?a <=? ?b] => destruct (Z.leb_spec a b)
           end; lia.
Qed.

Lemma overall_monotone_example :
  (overall neutral_scores <? overall scores_8_9)%float = true
  /\ grade_level (grade neutral_scores) <= grade_level (grade scores_8_9).
Proof.
  apply overall_monotone; try reflexivity.
  - unfold scores_le. simpl. lia.
  - discriminate.
Defined.

(** ** Words and the word count of [ResumeData] *)




Example words_example :
  words (py "  Jane   Doe" ++ [NL] ++ py "Engineer ")
  = [py "Jane"; py "Doe"; py "Engineer"].
Proof. reflexivity. Qed.

(** ** [parse] on an upload *)

Section ParseFacts.

Variable L : pylib.
Variable suffix : str -> str.
Variable pdf_text docx_text : bytes -> option str.
Variable utf_8 utf_16 cp1252 : bytes -> option str.
Variable utf_8_replace : bytes -> str.

(** [parse] raises on an upload without bytes or without a name,
    whatever its extension, and on an extension that is not one of [.pdf],
    [.docx], [.doc], [.txt] once lower-cased. *)
Theorem parse_rejects (file_bytes : bytes) (file_name : str) :
  (file_bytes = [] \/ file_name = []
   \/ mem_str (str_lower L (suffix file_name)) SUPPORTED_EXTENSIONS = false) ->
  parse L suffix pdf_text docx_text utf_8 utf_16 cp1252 utf_8_replace
    file_bytes file_name = None.
Proof.
  unfold parse. intros [-> | [-> | Hext]].
  - reflexivity.
  - now rewrite andb_false_r.
  - rewrite Hext. cbn [negb].
    destruct (negb (is_empty file_bytes) && negb (is_empty file_name));
      reflexivity.
Qed.

(** X15. A text upload with bytes and a name always parses.  The text of
    the result is [clean_text] of the decoded bytes, so it needs no further
    stripping and is empty exactly when the decoded text holds whitespace
    only; there are no sections yet, and the word count is that of the
    cleaned text. *)
Theorem parse_txt_upload (file_bytes : bytes) (file_name : str) :
  file_bytes <> [] -> file_name <> [] ->
  str_lower L (suffix file_name) = py ".txt" ->
  let decoded :=
    text (_parse_txt utf_8 utf_16 cp1252 utf_8_replace file_bytes) in
  exists resume,
    parse L suffix pdf_text docx_text utf_8 utf_16 cp1252 utf_8_replace
      file_bytes file_name = Some resume
    /\ raw_text resume = clean_text decoded
    /\ strip (raw_text resume) = raw_text resume
    /\ (raw_text resume = [] <-> Forall (fun c => isspace c = true) decoded)
    /\ sections resume = []
    /\ file_type resume = py ".txt"
    /\ word_count resume = len (words (raw_text resume)).
Proof.
  intros Hb Hn Hext decoded. unfold parse.
  destruct file_bytes as [|b bs]; [congruence|].
  destruct file_name as [|c cs]; [congruence|].
  cbn [is_empty negb andb]. rewrite Hext.
  change (mem_str (py ".txt") SUPPORTED_EXTENSIONS) with true.
  change (str_eqb (py ".txt") (py ".pdf")) with false.
  change (mem_str (py ".txt") [py ".docx"; py ".doc"]) with false.
  change (str_eqb (py ".txt") (py ".txt")) with true.
  cbn [negb bind]. fold decoded.
  eexists. split; [reflexivity|].
  change (raw_text (ResumeData_new (clean_text decoded) (c :: cs)
                      (py ".txt") [] 0)) with (clean_text decoded).
  split; [reflexivity|]. split; [|split; [|split; [|split]]].
  - destruct (clean_text_cleaned decoded) as [_ _ He]. exact He.
  - rewrite <- filter_visible_nil, <- (filter_visible_clean_text decoded).
    split; [now intros -> |].
    apply stripped_visible_head.
    destruct (clean_text_cleaned decoded) as [_ _ He]. rewrite <- He.
    apply strip_stripped.
  - reflexivity.
  - reflexivity.
  - unfold ResumeData_new. cbn [word_count].
    destruct (clean_text decoded); reflexivity.
Qed.

End ParseFacts.

Lemma parse_rejects_example :
  parse ascii_lib (fun _ => py ".png") (fun _ => None) (fun _ => None)
    (fun _ => None) (fun _ => None) (fun _ => None) (fun _ => [])
    [Byte.x41] (py "photo.png") = None.
Proof.
  apply parse_rejects. right. right. reflexivity.
Defined.

Lemma parse_txt_upload_example :
  let decoded :=
    text (_parse_txt (fun _ => None) (fun _ => None) (fun _ => None)
            (fun _ => []) [Byte.x48; Byte.x69; Byte.x20]) in
  exists resume,
    parse ascii_lib (fun _ => py ".TXT") (fun _ => None) (fun _ => None)
      (fun _ => None) (fun _ => None) (fun _ => None) (fun _ => [])
      [Byte.x48; Byte.x69; Byte.x20] (py "cv.TXT") = Some resume
    /\ raw_text resume = clean_text decoded
    /\ strip (raw_text resume) = raw_text resume
    /\ (raw_text resume = [] <-> Forall (fun c => isspace c = true) decoded)
    /\ sections resume = []
    /\ file_type resume = py ".txt"
    /\ word_count resume = len (words (raw_text resume)).
Proof.
  apply parse_txt_upload; [discriminate | discriminate | reflexivity].
Defined.

(** ** [rewrite_bullets] on an answer *)

Definition str_or_missing (d : dict) (key : str) : bool :=
  match dict_get d key (JStr []) with
  | JStr _ => true
  | _ => false
  end.

Definition text_of (d : dict) (key : str) : str :=
  match dict_get d key (JStr []) with
  | JStr s => s
  | _ => []
  end.

(** An item of ["rewrites"] that gives a suggestion: a dict whose three
    fields are strings or missing. *)
Definition rewrite_item (item : json) : bool :=
  match item with
  | JObj d => str_or_missing d (py "original")
              && str_or_missing d (py "improved")
              && str_or_missing d (py "explanation")
  | _ => false
  end.

Definition suggestion_of (item : json) : RewriteSuggestion :=
  match item with
  | JObj d => {| original := text_of d (py "original");
                 improved := text_of d (py "improved");
                 explanation := text_of d (py "explanation") |}
  | _ => {| original := []; improved := []; explanation := [] |}
  end.

Lemma read_rewrite_item (item : json) :
  read_rewrite item
  = if rewrite_item item then Some (suggestion_of item) else None.
Proof.
  destruct item as [| | | | | |d]; try reflexivity.
  unfold read_rewrite, rewrite_item, suggestion_of, RewriteSuggestion_new,
    str_or_missing, text_of.
  destruct (dict_get d (py "original") (JStr [])); try reflexivity;
  destruct (dict_get d (py "improved") (JStr [])); try reflexivity;
  destruct (dict_get d (py "explanation") (JStr [])); reflexivity.
Qed.

Lemma mapM_all {A B} (f : A -> option B) (ok : A -> bool) (g : A -> B)
  (l : list A) :
  (forall a, f a = if ok a then Some (g a) else None) ->
  mapM f l = if forallb ok l then Some (map g l) else None.
Proof.
  intros Hf. induction l as [|a l IH]; [reflexivity|].
  cbn [mapM forallb map]. rewrite Hf, IH.
  destruct (ok a); [|reflexivity]. cbn [bind andb].
  destruct (forallb ok l); reflexivity.
Qed.

(** X16. When the answer to a rewrite request is a JSON object whose
    ["rewrites"] entry is a list, [rewrite_bullets] returns one suggestion
    per item, in the order of the list and whatever the number of bullets
    sent, an absent field being the empty string; but a single item that
    is not a dict, or has a field that is not a string, discards all of
    them: the result is then the empty list. *)
Theorem rewrite_bullets_all_or_nothing (client : request -> response)
  (log : list request) (b : str) (bs : list str) (d : dict)
  (items : list json) :
  client (rewrite_request (b :: bs)) = Message (Some (JObj d)) ->
  dict_get d (py "rewrites") (JArr []) = JArr items ->
  fst (rewrite_bullets (b :: bs) client log)
  = if forallb rewrite_item items then map suggestion_of items else [].
Proof.
  intros Hresp Hitems.
  unfold rewrite_bullets, gbind, create, ret. cbn [is_empty fst].
  rewrite Hresp. unfold read_rewrites. rewrite Hitems. cbn [json_iter bind].
  rewrite (mapM_all read_rewrite rewrite_item suggestion_of)
    by apply read_rewrite_item.
  destruct (forallb rewrite_item items); reflexivity.
Qed.

Definition two_rewrites : dict :=
  [(py "rewrites",
    JArr [JObj [(py "original", JStr (py "Helped customers"));
                (py "improved", JStr (py "Resolved 50+ inquiries daily"))];
          JObj [(py "original", JStr (py "Did reports"));
                (py "improved", JInt 3)]])].

Lemma rewrite_bullets_all_or_nothing_example :
  fst (rewrite_bullets [py "Helped customers"] (answers (JObj two_rewrites)) [])
  = [].
Proof.
  rewrite (rewrite_bullets_all_or_nothing (answers (JObj two_rewrites)) []
             (py "Helped customers") [] two_rewrites
             [JObj [(py "original", JStr (py "Helped customers"));
                    (py "improved", JStr (py "Resolved 50+ inquiries daily"))];
              JObj [(py "original", JStr (py "Did reports"));
                    (py "improved", JInt 3)]]);
    reflexivity.
Defined.

(** ** [extract_and_rewrite] *)

Section RewriterFacts.

Variable L : pylib.

(** X17. [extract_and_rewrite] calls the client only if it found
    bullets.  With no bullet in the text nor in the first section named
    experience, work or employment, it returns the empty list and sends
    nothing; otherwise it sends one request, for bullets that are well
    formed and, for [max_bullets >= 1], at most [max_bullets] in number,
    and returns what [rewrite_bullets] returns for them. *)
Theorem extract_and_rewrite_requests (resume : ResumeData) (max_bullets : Z)
  (client : request -> response) (log : list request) :
  extract_and_rewrite L resume max_bullets client log = ([], log)
  \/ exists bullets,
       bullets <> []
       /\ Forall well_formed_bullet bullets
       /\ (1 <= max_bullets -> len bullets <= max_bullets)
       /\ extract_and_rewrite L resume max_bullets client log
          = rewrite_bullets bullets client log
       /\ snd (extract_and_rewrite L resume max_bullets client log)
          = log ++ [rewrite_request bullets].
Proof.
  unfold extract_and_rewrite.
  set (chosen :=
         if is_empty (extract_bullet_points L (raw_text resume) max_bullets)
         then match find (fun section =>
                            mem_str (str_lower L (name section))
                              experience_names) (sections resume) with
              | Some section =>
                  extract_bullet_points L (content section) max_bullets
              | None => extract_bullet_points L (raw_text resume) max_bullets
              end
         else extract_bullet_points L (raw_text resume) max_bullets).
  assert (Hchosen : exists text,
            chosen = extract_bullet_points L text max_bullets).
  { unfold chosen.
    destruct (is_empty (extract_bullet_points L (raw_text resume)
                          max_bullets)); [|eauto].
    destruct (find _ (sections resume)); eauto. }
  destruct Hchosen as (text & Hchosen).
  destruct chosen as [|b bs] eqn:E; [now left|].
  right. exists (b :: bs). split; [discriminate|].
  rewrite Hchosen. split; [apply extract_bullets_items|]. split.
  - intros Hmax.
    pose proof (extract_bullet_points_bounds L text max_bullets) as Hb.
    cbv zeta in Hb. destruct Hb as (_ & _ & _ & _ & _ & Hb). now apply Hb.
  - rewrite <- Hchosen. split; reflexivity.
Qed.

End RewriterFacts.

Example extract_and_rewrite_silent :
  extract_and_rewrite ascii_lib a_resume 6 (fun _ => Raises) [] = ([], []).
Proof. vm_compute. reflexivity. Qed.

(** ** [rewrite_single] *)

(** X18. Whatever the client answers, [rewrite_single] sends one request
    and returns a suggestion whose original is the text it was given.  The
    improved text is a string taken from the answer only when the answer
    is a JSON object whose ["rewrites"] entry is a list starting with a
    dict; in every other case, failures included, it is the given text. *)
Theorem rewrite_single_keeps_text (str_e : response -> str)
  (text context : str) (client : request -> response) (log : list request) :
  let result := rewrite_single str_e text context client log in
  original (fst result) = text
  /\ snd result = log ++ [single_request text context]
  /\ (improved (fst result) = text
      \/ exists data d rest,
           client (single_request text context) = Message (Some (JObj data))
           /\ dict_get data (py "rewrites") (JArr [JObj []])
              = JArr (JObj d :: rest)
           /\ dict_get d (py "improved") (JStr text)
              = JStr (improved (fst result))).
Proof.
  unfold rewrite_single, gbind, create, ret. cbn [fst snd].
  assert (Hdefault :
    forall r, original (single_error str_e text r) = text
              /\ improved (single_error str_e text r) = text)
    by (intros; split; reflexivity).
  destruct (client (single_request text context)) as [|loads] eqn:Hresp.
  { repeat split; auto. }
  unfold read_single.
  destruct loads as [[| | | | | |data]|];
    try (repeat split; auto; fail).
  destruct (truthy (dict_get data (py "rewrites") (JArr [JObj []]))) eqn:Ht;
    [|repeat split; auto].
  unfold first_rewrite.
  destruct (dict_get data (py "rewrites") (JArr [JObj []]))
    as [| | | | |[|[| | | | | |d] rest]|] eqn:Hrw;
    try (repeat split; auto; fail).
  cbn [bind]. unfold RewriteSuggestion_new. cbn [str_field bind].
  destruct (dict_get d (py "improved") (JStr text)) as [| | | |s| |] eqn:Hi;
    try (repeat split; auto; fail).
  cbn [str_field bind].
  destruct (str_field (dict_get d (py "explanation") (JStr [])));
    cbn [bind]; [|repeat split; auto].
  cbn [original improved fst]. repeat split. right.
  exists data, d, rest. auto.
Qed.

Example rewrite_single_cases :
  let str_e := fun _ : response => py "timeout" in
  fst (rewrite_single str_e (py "Did reports") (py "bullet point")
         (fun _ => Raises) [])
  = {| original := py "Did reports"; improved := py "Did reports";
       explanation := py "Rewrite failed: timeout" |}
  /\ fst (rewrite_single str_e (py "Did reports") []
            (answers (JObj [(py "rewrites", JArr [])])) [])
     = {| original := py "Did reports"; improved := py "Did reports";
          explanation := py "No changes needed" |}
  /\ fst (rewrite_single str_e (py "Did reports") []
            (answers (JObj [])) [])
     = {| original := py "Did reports"; improved := py "Did reports";
          explanation := [] |}.
Proof. vm_compute. repeat split. Qed.

(** ** [analyze] *)

Definition str_list (v : json) : bool :=
  match v with
  | JArr l => forallb (fun x => match x with JStr _ => true | _ => false end) l
  | _ => false
  end.

Definition texts_of (v : json) : list str :=
  match v with
  | JArr l => map (fun x => match x with JStr s => s | _ => [] end) l
  | _ => []
  end.

Lemma str_list_field_texts (v : json) :
  str_list_field v = if str_list v then Some (texts_of v) else None.
Proof.
  destruct v as [| | | | |l|]; try reflexivity.
  unfold str_list_field, str_list, texts_of.
  apply mapM_all. intros [| | | | | |]; reflexivity.
Qed.

(** An item of ["sections"] that gives a feedback: a dict whose name is a
    string, whose flag is a boolean and whose three lists are lists of
    strings, each of them possibly missing. *)
Definition feedback_item (item : json) : bool :=
  match item with
  | JObj d =>
      match dict_get d (py "section_name") (JStr (py "Unknown")),
            dict_get d (py "content_found") (JBool true) with
      | JStr _, JBool _ =>
          str_list (dict_get d (py "strengths") (JArr []))
          && str_list (dict_get d (py "improvements") (JArr []))
          && str_list (dict_get d (py "missing_elements") (JArr []))
      | _, _ => false
      end
  | _ => false
  end.

Definition feedback_of (item : json) : SectionFeedback :=
  match item with
  | JObj d =>
      {| section_name :=
           match dict_get d (py "section_name") (JStr (py "Unknown")) with
           | JStr s => s
           | _ => []
           end;
         content_found :=
           match dict_get d (py "content_found") (JBool true) with
           | JBool b => b
           | _ => true
           end;
         strengths := texts_of (dict_get d (py "strengths") (JArr []));
         improvements := texts_of (dict_get d (py "improvements") (JArr []));
         missing_elements :=
           texts_of (dict_get d (py "missing_elements") (JArr [])) |}
  | _ => {| section_name := []; content_found := true; strengths := [];
            improvements := []; missing_elements := [] |}
  end.

Section AnalyzeFacts.

Variable bool_field : json -> option bool.
Variable str_e : response -> str.
Hypothesis bool_field_bool : forall b, bool_field (JBool b) = Some b.

Lemma read_feedback_item (item : json) :
  feedback_item item = true ->
  read_feedback bool_field item = Some (feedback_of item).
Proof.
  destruct item as [| | | | | |d]; try discriminate.
  unfold feedback_item, read_feedback, feedback_of.
  destruct (dict_get d (py "section_name") (JStr (py "Unknown")));
    try discriminate.
  destruct (dict_get d (py "content_found") (JBool true)); try discriminate.
  rewrite !andb_true_iff. intros [[H1 H2] H3].
  cbn [str_field bind]. rewrite bool_field_bool. cbn [bind].
  rewrite !str_list_field_texts, H1, H2, H3. reflexivity.
Qed.

Lemma mapM_feedback (items : list json) :
  forallb feedback_item items = true ->
  mapM (read_feedback bool_field) items = Some (map feedback_of items).
Proof.
  induction items as [|item items IH]; [reflexivity|].
  cbn [forallb mapM map]. rewrite andb_true_iff. intros [H1 H2].
  rewrite (read_feedback_item item H1), (IH H2). reflexivity.
Qed.

(** X19. When the answer to the analysis request is a JSON object whose
    ["sections"] entry is a list of well-formed items, [analyze] returns
    one feedback per item, in the order of the list, with every string of
    every list of the item: nothing caps the lists at three entries or the
    number of sections.  The summary is the ["overall_summary"] entry as
    parsed, whatever its type, or the empty string when missing. *)
Theorem analyze_keeps_every_item (resume : ResumeData)
  (client : request -> response) (log : list request) (d : dict)
  (items : list json) :
  client (analysis_request resume) = Message (Some (JObj d)) ->
  dict_get d (py "sections") (JArr []) = JArr items ->
  forallb feedback_item items = true ->
  fst (analyze bool_field str_e resume client log)
  = (map feedback_of items, dict_get d (py "overall_summary") (JStr []))
  /\ length (fst (fst (analyze bool_field str_e resume client log)))
     = length items
  /\ snd (analyze bool_field str_e resume client log)
     = log ++ [analysis_request resume].
Proof.
  intros Hresp Hitems Hall.
  assert (E : fst (analyze bool_field str_e resume client log)
              = (map feedback_of items,
                 dict_get d (py "overall_summary") (JStr []))).
  { unfold analyze, gbind, create, ret. cbn [fst]. rewrite Hresp.
    unfold read_analysis. rewrite Hitems. cbn [json_iter bind].
    rewrite (mapM_feedback items Hall). reflexivity. }
  split; [exact E|]. rewrite E. cbn [fst].
  split; [apply length_map | reflexivity].
Qed.

(** The failures of the analysis: the client raises, the message is not
    JSON, or the JSON value is not an object. *)
Inductive analysis_failure : response -> Prop :=
  | analysis_gateway_error : analysis_failure Raises
  | analysis_malformed_json : analysis_failure (Message None)
  | analysis_not_an_object (v : json) :
      (forall d, v <> JObj d) -> analysis_failure (Message (Some v)).

(** X20. When the analysis fails, [analyze] returns exactly one feedback,
    named ["Error"], with no content found, no strength, no missing
    element and the single improvement ["Analysis failed: "] followed by
    the text of the exception, together with the fixed summary
    ["Unable to generate analysis. Please try again."]. *)
Theorem analyze_fails_soft (resume : ResumeData)
  (client : request -> response) (log : list request) :
  analysis_failure (client (analysis_request resume)) ->
  exists feedback,
    fst (analyze bool_field str_e resume client log)
    = ([feedback], JStr (py "Unable to generate analysis. Please try again."))
    /\ section_name feedback = py "Error"
    /\ content_found feedback = false
    /\ strengths feedback = [] /\ missing_elements feedback = []
    /\ improvements feedback
       = [py "Analysis failed: "
          ++ str_e (client (analysis_request resume))].
Proof.
  intros Hfail. unfold analyze, gbind, create, ret. cbn [fst].
  assert (Herr : forall r,
    exists feedback,
      analysis_error str_e r
      = ([feedback],
         JStr (py "Unable to generate analysis. Please try again."))
      /\ section_name feedback = py "Error"
      /\ content_found feedback = false
      /\ strengths feedback = [] /\ missing_elements feedback = []
      /\ improvements feedback = [py "Analysis failed: " ++ str_e r]).
  { intros r. eexists. split; [reflexivity|]. repeat split. }
  inversion Hfail as [Hr | Hr | v Hv Hr].
  - apply Herr.
  - apply Herr.
  - destruct v; try apply Herr. now elim (Hv fields).
Qed.

End AnalyzeFacts.

Definition json_bool (v : json) : option bool :=
  match v with
  | JBool b => Some b
  | _ => None
  end.

Definition long_feedback : dict :=
  [(py "overall_summary", JInt 7);
   (py "sections",
    JArr [JObj [(py "section_name", JStr (py "skills"));
                (py "strengths",
                 JArr [JStr (py "a"); JStr (py "b"); JStr (py "c");
                       JStr (py "d")])]])].

Lemma analyze_keeps_every_item_example :
  fst (analyze json_bool (fun _ => []) a_resume
         (answers (JObj long_feedback)) [])
  = ([{| section_name := py "skills"; content_found := true;
         strengths := [py "a"; py "b"; py "c"; py "d"];
         improvements := []; missing_elements := [] |}], JInt 7).
Proof.
  destruct (analyze_keeps_every_item json_bool (fun _ => [])
              (fun b => eq_refl) a_resume (answers (JObj long_feedback)) []
              long_feedback
              [JObj [(py "section_name", JStr (py "skills"));
                     (py "strengths",
                      JArr [JStr (py "a"); JStr (py "b"); JStr (py "c");
                            JStr (py "d")])]]
              eq_refl eq_refl eq_refl) as [E _].
  rewrite E. reflexivity.
Defined.

Lemma analyze_fails_soft_example :
  exists feedback,
    fst (analyze json_bool (fun _ => py "timeout") a_resume
           (fun _ => Raises) [])
    = ([feedback], JStr (py "Unable to generate analysis. Please try again."))
    /\ section_name feedback = py "Error"
    /\ content_found feedback = false
    /\ strengths feedback = [] /\ missing_elements feedback = []
    /\ improvements feedback = [py "Analysis failed: " ++ py "timeout"].
Proof.
  apply (analyze_fails_soft json_bool (fun _ => py "timeout") a_resume
           (fun _ => Raises) []).
  apply analysis_gateway_error.
Defined.

(** ** The rewriting stage of the application *)

Section StageFacts.

Variable L : pylib.

Definition marker_free (l : str) : Prop :=
  forall x, In x boilerplate_markers -> contains x (str_lower L l) = false.

Lemma candidate_lines_spec (raw : str) :
  Forall (fun l => 40 < len l /\ stripped l /\ ~ In NL l /\ marker_free l)
    (candidate_lines L raw).
Proof.
  apply Forall_forall. intros l Hl. unfold candidate_lines in Hl.
  apply filter_In in Hl as [Hl Hfree].
  apply in_map_iff in Hl as (line & <- & Hline).
  apply filter_In in Hline as [Hline Hlong].
  apply Z.ltb_lt in Hlong. split; [assumption|].
  split; [apply strip_stripped|]. split.
  - apply strip_no_sep.
    pose proof (split_fields_no_sep NL raw) as Hsep.
    rewrite Forall_forall in Hsep. now apply Hsep.
  - intros x Hx. apply negb_true_iff in Hfree.
    destruct (contains x (str_lower L (strip line))) eqn:E; [|reflexivity].
    assert (Hex : existsb (fun x => contains x (str_lower L (strip line)))
                    boilerplate_markers = true)
      by (apply existsb_exists; eauto).
    congruence.
Qed.

(** X21. The rewriting stage sends a second request only when the first
    attempt has returned nothing and some line of the text qualifies: a
    line longer than 40 characters once stripped whose lower-cased form
    holds none of the markers email, phone, [@], university, degree,
    bachelor, master.  That request carries at most five such lines, the
    first ones of the text, stripped; in every other case the stage
    returns the first attempt as it is. *)
Theorem rewrite_stage_fallback (resume : ResumeData)
  (client : request -> response) (log : list request) :
  let first := extract_and_rewrite L resume 6 client log in
  let offered := firstn 5 (candidate_lines L (raw_text resume)) in
  (rewrite_stage L resume client log = first
   /\ (fst first <> [] \/ candidate_lines L (raw_text resume) = []))
  \/ (fst first = [] /\ offered <> []
      /\ (length offered <= 5)%nat
      /\ Forall (fun l => 40 < len l /\ stripped l /\ ~ In NL l
                          /\ marker_free l) offered
      /\ rewrite_stage L resume client log
         = rewrite_bullets offered client (snd first)).
Proof.
  intros first offered. unfold rewrite_stage, gbind. fold first.
  destruct first as [suggestions log'] eqn:E. cbn [fst snd].
  destruct suggestions as [|s ss]; cbn [is_empty].
  - destruct (candidate_lines L (raw_text resume)) as [|l ls] eqn:Hc;
      cbn [is_empty].
    + left. split; [reflexivity | now right].
    + right. split; [reflexivity|]. split; [subst offered; discriminate|].
      split; [apply firstn_le_length|]. split; [|reflexivity].
      subst offered. rewrite <- Hc.
      pose proof (candidate_lines_spec (raw_text resume)) as Hall.
      rewrite <- (firstn_skipn 5) in Hall.
      now apply Forall_app in Hall as [Hall _].
  - left. split; [reflexivity | left; discriminate].
Qed.

End StageFacts.

(** Scenario E: no bullet, one line that qualifies, one that does not. *)
Definition resume_without_bullets : ResumeData :=
  {| raw_text :=
       py "Contact me by email at jane.doe at example dot com anytime"
       ++ [NL]
       ++ py "I took care of the weekly reporting for the sales team";
     file_name := py "cv.txt"; file_type := py ".txt"; sections := [];
     word_count := 22 |}.

Example rewrite_stage_scenario_E :
  snd (rewrite_stage ascii_lib resume_without_bullets (fun _ => Raises) [])
  = [rewrite_request
       [py "I took care of the weekly reporting for the sales team"]].
Proof. vm_compute. reflexivity. Qed.

(** ** [format_score_bar] *)

(** X22. For a score in [[1, 10]] and the default bounds, the bar of
    [format_score_bar] has exactly twenty cells, two filled cells per
    point, followed by the score over ten: the rounding of the float
    product never loses a cell. *)
Theorem format_score_bar_cells (score : Z) :
  in_range score = true ->
  format_score_bar score 10 20
  = Some (py "[" ++ repeat 9608 (Z.to_nat (2 * score))
          ++ repeat 9617 (Z.to_nat (20 - 2 * score))
          ++ py "] " ++ str_of_int score ++ py "/10").
Proof.
  intros H. apply in_range_listed in H. unfold score_range in H. simpl in H.
  destruct H as [<-|[<-|[<-|[<-|[<-|[<-|[<-|[<-|[<-|[<-|[]]]]]]]]]]];
    vm_compute; reflexivity.
Qed.

Lemma format_score_bar_cells_example :
  format_score_bar 7 10 20
  = Some (py "[" ++ repeat 9608 (Z.to_nat (2 * 7))
          ++ repeat 9617 (Z.to_nat (20 - 2 * 7))
          ++ py "] " ++ str_of_int 7 ++ py "/10").
Proof. apply format_score_bar_cells. reflexivity. Defined.

Example format_score_bar_edges :
  format_score_bar 5 0 20 = None
  /\ format_score_bar 15 10 20
     = Some (py "[" ++ repeat 9608 30 ++ py "] 15/10")
  /\ format_score_bar (-2) 10 20
     = Some (py "[" ++ repeat 9617 24 ++ py "] -2/10").
Proof. vm_compute. repeat split. Qed.

(** ** [detect_sections]: the sections of a successful detection *)

Definition real_content (section : ResumeSection) : Prop :=
  content section <> [] /\ content section <> py "null".

Lemma build_sections_real (items : dict) (acc out : list ResumeSection) :
  build_sections items acc = Some out ->
  Forall real_content acc -> Forall real_content out.
Proof.
  revert acc. induction items as [|[k v] items IH]; intros acc Hout Hacc.
  - simpl in Hout. now injection Hout as <-.
  - cbn [build_sections] in Hout.
    destruct (truthy v && neq_str v (py "null")) eqn:Hv;
      [|now apply (IH acc)].
    destruct v as [| | | |s| |]; try discriminate Hout.
    cbn [ResumeSection_new str_field bind] in Hout.
    apply (IH _ Hout). apply Forall_app. split; [assumption|].
    constructor; [|constructor]. cbn [truthy neq_str] in Hv.
    apply andb_true_iff in Hv as [Hne Hnull]. split; cbn [content].
    + intros ->. discriminate.
    + intros ->. discriminate.
Qed.

Lemma build_sections_none (items : dict) (acc : list ResumeSection) :
  forallb (fun kv => negb (truthy (snd kv) && neq_str (snd kv) (py "null")))
    items = true ->
  build_sections items acc = Some acc.
Proof.
  revert acc. induction items as [|[k v] items IH]; intros acc H;
    [reflexivity|].
  cbn [forallb snd] in H. apply andb_true_iff in H as [Hv H].
  cbn [build_sections]. apply negb_true_iff in Hv. rewrite Hv. now apply IH.
Qed.

(** X23. A detection that succeeds never builds a section with an empty
    content or with the content ["null"]; and it can build none at all:
    when every value of the answer is null, ["null"], empty or otherwise
    false, the resume ends with an empty list of sections, not with the
    [full_resume] fallback of the failures. *)
Theorem detect_sections_real_content (resume : ResumeData)
  (client : request -> response) (log : list request) (d : dict) :
  client (sections_request resume) = Message (Some (JObj d)) ->
  ((exists secs, build_sections d [] = Some secs
                 /\ sections (fst (detect_sections resume client log)) = secs
                 /\ Forall real_content secs)
   \/ (build_sections d [] = None
       /\ sections (fst (detect_sections resume client log))
          = [full_resume resume]))
  /\ (forallb (fun kv => negb (truthy (snd kv)
                               && neq_str (snd kv) (py "null"))) d = true ->
      sections (fst (detect_sections resume client log)) = []).
Proof.
  intros Hresp. unfold detect_sections, gbind, create, ret. cbn [fst].
  rewrite Hresp. unfold read_sections. split.
  - destruct (build_sections d []) as [secs|] eqn:E.
    + left. exists secs. split; [reflexivity|]. split; [reflexivity|].
      apply (build_sections_real d [] secs E). constructor.
    + right. split; reflexivity.
  - intros Hall. now rewrite (build_sections_none d [] Hall).
Qed.

Definition nothing_found : dict :=
  [(py "contact", JNull); (py "summary", JStr (py "null"));
   (py "experience", JStr []); (py "skills", JArr [])].

Lemma detect_sections_real_content_example :
  sections (fst (detect_sections a_resume (answers (JObj nothing_found)) []))
  = [].
Proof.
  destruct (detect_sections_real_content a_resume
              (answers (JObj nothing_found)) [] nothing_found eq_refl)
    as [_ H].
  apply H. reflexivity.
Defined.

(** ** The size of the requests *)

Lemma slice_to_length (n : Z) (l : str) : (length (slice_to n l) <= length l)%nat.
Proof.
  unfold slice_to. destruct (0 <=? n); rewrite length_firstn; lia.
Qed.

Lemma truncate_text_length (text : str) (max_chars : Z) :
  0 <= max_chars -> len (truncate_text text max_chars) <= max_chars + 35.
Proof.
  intros Hmax. unfold truncate_text.
  destruct (Z.leb_spec (len text) max_chars) as [Hle|Hgt]; [lia|].
  assert (Hcut : (length (slice_to max_chars text) <= Z.to_nat max_chars)%nat).
  { unfold slice_to. apply Z.leb_le in Hmax as ->.
    rewrite length_firstn. lia. }
  match goal with
  | |- context [if ?c then _ else _] => destruct c
  end; unfold len; rewrite length_app; simpl length.
  - pose proof (slice_to_length
                  (Z.max (rfind 46 (slice_to max_chars text))
                     (rfind NL (slice_to max_chars text)) + 1)
                  (slice_to max_chars text)).
    lia.
  - lia.
Qed.

Fixpoint total_len (lines : list str) : Z :=
  match lines with
  | [] => 0
  | l :: lines' => len l + total_len lines'
  end.

Lemma join_dashes_length (b : str) (bs : list str) :
  len (join NL (map (fun bp => py "- " ++ bp) (b :: bs)))
  = total_len (b :: bs) + 3 * len (b :: bs) - 1.
Proof.
  revert b. induction bs as [|b' bs IH]; intros b.
  - cbn [map join total_len]. unfold len. rewrite length_app.
    simpl length. lia.
  - change (map (fun bp => py "- " ++ bp) (b :: b' :: bs))
      with ((py "- " ++ b) :: map (fun bp => py "- " ++ bp) (b' :: bs)).
    rewrite join_cons by discriminate.
    specialize (IH b').
    change (total_len (b :: b' :: bs)) with (len b + total_len (b' :: bs)).
    set (rest := join NL (map (fun bp => py "- " ++ bp) (b' :: bs))) in *.
    set (n := total_len (b' :: bs)) in *.
    unfold len in *. rewrite !length_app.
    change (length (b :: b' :: bs)) with (S (length (b' :: bs))).
    change (length (NL :: rest)) with (S (length rest)).
    change (length (py "- ")) with 2%nat. lia.
Qed.

(** X24. Only the requests built from a whole resume are cut.  The
    section, scoring and analysis requests hold the text of the resume cut
    by [truncate_text] at 15000 characters, so at most 15035 characters of
    it, alone or inside a fixed frame of 110 (scoring) or 164 (analysis)
    characters.  The rewrite requests are not cut: the request of
    [rewrite_bullets] holds every bullet in full, three characters added
    to each, in a frame of 106 characters, and the request of
    [rewrite_single] holds the whole text and the whole context. *)
Theorem request_sizes (resume : ResumeData) (b : str) (bs : list str)
  (text context : str) :
  len (user (sections_request resume)) <= 15035
  /\ len (user (scoring_request resume))
     = len (truncate_text (raw_text resume) 15000) + 110
  /\ len (user (analysis_request resume))
     = len (truncate_text (raw_text resume) 15000) + 164
  /\ len (truncate_text (raw_text resume) 15000) <= 15035
  /\ len (user (rewrite_request (b :: bs)))
     = 106 + total_len (b :: bs) + 3 * len (b :: bs) - 1
  /\ len (user (single_request text context))
     = 27 + len text
       + (if is_empty context then 0 else 13 + len context).
Proof.
  pose proof (truncate_text_length (raw_text resume) 15000 ltac:(lia)) as H.
  pose proof (join_dashes_length b bs) as Hj.
  unfold sections_request, scoring_request, analysis_request,
    rewrite_request, single_request,
    get_scoring_user_prompt, get_analysis_user_prompt,
    get_rewrite_user_prompt.
  cbv zeta. cbn [user].
  repeat split; try assumption.
  - unfold len. rewrite !length_app. simpl length. lia.
  - unfold len. rewrite !length_app. simpl length. lia.
  - set (rest := join NL _) in *. unfold len in *. rewrite !length_app.
    simpl length in *. lia.
  - destruct (is_empty context); unfold len; rewrite !length_app;
      simpl length; lia.
Qed.
